(** * 2048: the grid algorithms of [helpers.py]

    A shallow embedding of the game logic of RickBarretto/2048
    ([new_table], [insert_block], [can_move], [push_blocks] and the
    private helpers [_get_empty_indexes], [_horizontal_sum],
    [_vertical_sum], [_horizontal_move], [_vertical_move]) and of the
    match loop of [game.py] ([game_match], [end_of_match]), followed by
    the properties of the grid transformation and of the match.

    Python integers are unbounded: a cell is a [Z].  The table is a Python
    list of four row lists, mutated in place; here every function takes the
    table and returns the table it leaves behind.  Indexing a list out of
    range raises [IndexError] and a failed [assert] raises
    [AssertionError]: both are results of the [result] monad.  The rows
    made by [new_table] are four distinct list objects, so a write to one
    row is never seen through another. *)

From Stdlib Require Import ZArith List String Bool Lia.
Import ListNotations.
Open Scope string_scope.
Open Scope list_scope.
Open Scope Z_scope.

(** ** Exceptions and the result monad *)

Inductive exn : Type :=
| IndexError
| AssertionError.

Inductive result (A : Type) : Type :=
| Ok (a : A)
| Raise (e : exn).

Arguments Ok {A} a.
Arguments Raise {A} e.

Definition bind {A B : Type} (m : result A) (k : A -> result B) : result B :=
  match m with
  | Ok a => k a
  | Raise e => Raise e
  end.

Notation "x <- m ;; k" := (bind m (fun x => k))
  (at level 61, m at next level, right associativity).
Notation "' p <- m ;; k" := (bind m (fun x => match x with p => k end))
  (at level 61, p pattern, m at next level, right associativity).

(** ** Python's [range] and list indexing *)

(** The number of elements of [range(start, stop, step)]. *)
Definition range_len (start stop step : Z) : Z :=
  if (0 <? step) && (start <? stop) then 1 + (stop - 1 - start) / step
  else if (step <? 0) && (stop <? start) then 1 + (start - 1 - stop) / (0 - step)
  else 0.

Definition range (start stop step : Z) : list Z :=
  map (fun k => start + Z.of_nat k * step)
      (seq 0 (Z.to_nat (range_len start stop step))).

(** A Python index into a sequence of length [len]: a negative index
    counts from the end, anything outside raises [IndexError]. *)
Definition py_index (len i : Z) : result nat :=
  let j := if i <? 0 then i + len else i in
  if (0 <=? j) && (j <? len) then Ok (Z.to_nat j) else Raise IndexError.

Fixpoint replace_nth {A : Type} (n : nat) (x : A) (l : list A) : list A :=
  match l, n with
  | [], _ => []
  | _ :: t, O => x :: t
  | h :: t, S n' => h :: replace_nth n' x t
  end.

Definition getitem {A : Type} (l : list A) (i : Z) : result A :=
  j <- py_index (Z.of_nat (List.length l)) i ;;
  match nth_error l j with
  | Some x => Ok x
  | None => Raise IndexError
  end.

Definition setitem {A : Type} (l : list A) (i : Z) (x : A) : result (list A) :=
  j <- py_index (Z.of_nat (List.length l)) i ;;
  Ok (replace_nth j x l).

(** ** The table *)

Definition table : Type := list (list Z).

(** [table[row][col]] *)
Definition get_cell (t : table) (row col : Z) : result Z :=
  r <- getitem t row ;;
  getitem r col.

(** [table[row][col] = v]: the row object is updated in place, so the
    table holds the updated row. *)
Definition set_cell (t : table) (row col v : Z) : result table :=
  r <- getitem t row ;;
  r' <- setitem r col v ;;
  setitem t row r'.

Definition new_table : table :=
  [ [0; 0; 0; 0];
    [0; 0; 0; 0];
    [0; 0; 0; 0];
    [0; 0; 0; 0] ].

(** ** Loops *)

(** [for x in xs: body], the body threading a state. *)
Fixpoint for_each {X St : Type} (xs : list X) (body : X -> St -> result St)
  (s : St) : result St :=
  match xs with
  | [] => Ok s
  | x :: xs' => s' <- body x s ;; for_each xs' body s'
  end.

(** What an iteration of a loop with [break] asks for next. *)
Inductive flow (St : Type) : Type :=
| Next (s : St)
| Break (s : St).

Arguments Next {St} s.
Arguments Break {St} s.

(** [for x in xs: body], where the body may [break]. *)
Fixpoint for_break {X St : Type} (xs : list X)
  (body : X -> St -> result (flow St)) (s : St) : result St :=
  match xs with
  | [] => Ok s
  | x :: xs' =>
      f <- body x s ;;
      match f with
      | Next s' => for_break xs' body s'
      | Break s' => Ok s'
      end
  end.

(** [for x in xs: body], where the body may [return v] from the enclosing
    function: [Some v] is the value returned, [None] means the loop ran to
    its end. *)
Fixpoint for_return {X R : Type} (xs : list X)
  (body : X -> result (option R)) : result (option R) :=
  match xs with
  | [] => Ok None
  | x :: xs' =>
      r <- body x ;;
      match r with
      | Some v => Ok (Some v)
      | None => for_return xs' body
      end
  end.

(** [x in xs] for strings. *)
Definition str_in (x : string) (xs : list string) : bool :=
  existsb (String.eqb x) xs.

(** ** The scan of one line

    [_horizontal_sum] and [_vertical_sum] run the same two loops (the
    pivot [idx] and the [cursor] ahead of it) and differ only in how the
    pair (line, position) addresses a cell: [table[row][idx]] or
    [table[idx][col]].  The same holds for the two move functions.  The
    loops are written once, over the accessors [rd] and [wr] of the line
    being scanned. *)

Section LineScan.
Context {St : Type}.
Variable rd : St -> Z -> result Z.
Variable wr : St -> Z -> Z -> result St.
Variables idx_start idx_end iteration_factor : Z.

(** One iteration of the [cursor] loop of the sum functions, for the
    pivot [idx] whose value on entry was [last]. *)
Definition sum_cursor_body (idx last cursor : Z) (s : St * Z)
  : result (flow (St * Z)) :=
  let '(tb, sum) := s in
  current <- rd tb cursor ;;
  if current =? 0 then Ok (Next (tb, sum))
  else if current =? last then
    v <- rd tb idx ;;
    tb1 <- wr tb idx (v * 2) ;;
    tb2 <- wr tb1 cursor 0 ;;
    v' <- rd tb2 idx ;;
    Ok (Break (tb2, sum + v'))
  else Ok (Break (tb, sum)).

(** One iteration of the [idx] loop of the sum functions. *)
Definition sum_idx_body (idx : Z) (s : St * Z) : result (St * Z) :=
  last <- rd (fst s) idx ;;
  for_break
    (range (idx + iteration_factor) (idx_end + iteration_factor)
           iteration_factor)
    (sum_cursor_body idx last) s.

Definition sum_line (s : St * Z) : result (St * Z) :=
  for_each (range idx_start idx_end iteration_factor) sum_idx_body s.

(** One iteration of the [cursor] loop of the move functions. *)
Definition move_cursor_body (idx cursor : Z) (s : St * bool)
  : result (flow (St * bool)) :=
  let '(tb, movement) := s in
  c <- rd tb cursor ;;
  if negb (c =? 0) then
    temp <- rd tb idx ;;
    c' <- rd tb cursor ;;
    tb1 <- wr tb idx c' ;;
    tb2 <- wr tb1 cursor temp ;;
    Ok (Break (tb2, true))
  else Ok (Next (tb, movement)).

(** One iteration of the [idx] loop of the move functions. *)
Definition move_idx_body (idx : Z) (s : St * bool) : result (St * bool) :=
  pivot <- rd (fst s) idx ;;
  if negb (pivot =? 0) then Ok s
  else
    for_break
      (range (idx + iteration_factor) (idx_end + iteration_factor)
             iteration_factor)
      (move_cursor_body idx) s.

Definition move_line (s : St * bool) : result (St * bool) :=
  for_each (range idx_start idx_end iteration_factor) move_idx_body s.
End LineScan.

(** The triple [(idx_start, idx_end, iteration_factor)] chosen by the four
    functions: [forward] is the letter of the scan from index 0. *)
Definition scan_params (direction forward : string) : Z * Z * Z :=
  if String.eqb direction forward then (0, 3, 1) else (3, 0, -1).

(** ** The sum and move phases *)

Definition _horizontal_sum (t : table) (direction : string)
  : result (table * Z) :=
  if negb (str_in direction ["a"; "d"]) then Raise AssertionError
  else
    let '(idx_start, idx_end, iteration_factor) := scan_params direction "a" in
    for_each (range 0 4 1)
      (fun row =>
         sum_line (fun tb idx => get_cell tb row idx)
                  (fun tb idx v => set_cell tb row idx v)
                  idx_start idx_end iteration_factor)
      (t, 0).

Definition _vertical_sum (t : table) (direction : string)
  : result (table * Z) :=
  if negb (str_in direction ["w"; "s"]) then Raise AssertionError
  else
    let '(idx_start, idx_end, iteration_factor) := scan_params direction "w" in
    for_each (range 0 4 1)
      (fun col =>
         sum_line (fun tb idx => get_cell tb idx col)
                  (fun tb idx v => set_cell tb idx col v)
                  idx_start idx_end iteration_factor)
      (t, 0).

Definition _horizontal_move (t : table) (direction : string)
  : result (table * bool) :=
  if negb (str_in direction ["a"; "d"]) then Raise AssertionError
  else
    let '(idx_start, idx_end, iteration_factor) := scan_params direction "a" in
    for_each (range 0 4 1)
      (fun row =>
         move_line (fun tb idx => get_cell tb row idx)
                   (fun tb idx v => set_cell tb row idx v)
                   idx_start idx_end iteration_factor)
      (t, false).

Definition _vertical_move (t : table) (direction : string)
  : result (table * bool) :=
  if negb (str_in direction ["w"; "s"]) then Raise AssertionError
  else
    let '(idx_start, idx_end, iteration_factor) := scan_params direction "w" in
    for_each (range 0 4 1)
      (fun col =>
         move_line (fun tb idx => get_cell tb idx col)
                   (fun tb idx v => set_cell tb idx col v)
                   idx_start idx_end iteration_factor)
      (t, false).

(** ** [push_blocks]

    The returned tuple is built left to right: the sum phase runs first and
    the move phase runs on the table it leaves.  The result is the final
    table with the pair (score, movement). *)
Definition push_blocks (t : table) (direction : string)
  : result (table * (Z * bool)) :=
  if negb (str_in direction ["W"; "A"; "S"; "D"]) then Raise AssertionError
  else if String.eqb direction "A" then
    '(t1, score) <- _horizontal_sum t "a" ;;
    '(t2, moved) <- _horizontal_move t1 "a" ;;
    Ok (t2, (score, moved))
  else if String.eqb direction "D" then
    '(t1, score) <- _horizontal_sum t "d" ;;
    '(t2, moved) <- _horizontal_move t1 "d" ;;
    Ok (t2, (score, moved))
  else if String.eqb direction "W" then
    '(t1, score) <- _vertical_sum t "w" ;;
    '(t2, moved) <- _vertical_move t1 "w" ;;
    Ok (t2, (score, moved))
  else if String.eqb direction "S" then
    '(t1, score) <- _vertical_sum t "s" ;;
    '(t2, moved) <- _vertical_move t1 "s" ;;
    Ok (t2, (score, moved))
  else Ok (t, (0, false)).

(** ** [_get_empty_indexes], [insert_block], [can_move], [has_won] *)

Definition _get_empty_indexes (t : table) : result (list (Z * Z)) :=
  for_each (range 0 4 1)
    (fun row_idx =>
       for_each (range 0 4 1)
         (fun col_idx indexes =>
            v <- get_cell t row_idx col_idx ;;
            if v =? 0 then Ok (indexes ++ [(row_idx, col_idx)])
            else Ok indexes))
    [].

(** [rand.choice(seq)]: the element at a random position below
    [len(seq)], [IndexError] on an empty sequence.  The random source is
    the argument [draw]; every position is reached by some draw. *)
Definition choice {A : Type} (draw : nat) (seq : list A) : result A :=
  match nth_error seq (draw mod List.length seq) with
  | Some x => Ok x
  | None => Raise IndexError
  end.

Definition insert_block (draw_cell draw_value : nat) (t : table)
  : result table :=
  indexes <- _get_empty_indexes t ;;
  match indexes with
  | [] => Ok t
  | _ :: _ =>
      '(row, col) <- choice draw_cell indexes ;;
      v <- choice draw_value [2; 4] ;;
      set_cell t row col v
  end.

Definition can_move_horizontally (t : table) : result bool :=
  r <- for_return (range 0 4 1)
         (fun row =>
            for_return (range 0 3 1)
              (fun col =>
                 x <- get_cell t row col ;;
                 y <- get_cell t row (col + 1) ;;
                 if x =? y then Ok (Some true) else Ok None)) ;;
  Ok (match r with Some b => b | None => false end).

Definition can_move_vertically (t : table) : result bool :=
  r <- for_return (range 0 4 1)
         (fun col =>
            for_return (range 0 3 1)
              (fun row =>
                 x <- get_cell t row col ;;
                 y <- get_cell t (row + 1) col ;;
                 if x =? y then Ok (Some true) else Ok None)) ;;
  Ok (match r with Some b => b | None => false end).

Definition can_move (t : table) : result bool :=
  indexes <- _get_empty_indexes t ;;
  match indexes with
  | _ :: _ => Ok true
  | [] =>
      h <- can_move_horizontally t ;;
      if h then Ok true else can_move_vertically t
  end.

Definition has_won (t : table) : bool :=
  existsb (fun row => existsb (fun block => block =? 2048) row) t.

(** ** Well-formed tables and their lines *)

Definition wf_table (t : table) : Prop :=
  List.length t = 4%nat /\ Forall (fun r => List.length r = 4%nat) t.

Definition wf_tableb (t : table) : bool :=
  Nat.eqb (List.length t) 4 && forallb (fun r => Nat.eqb (List.length r) 4) t.

(** The cell at ([r], [c]), 0 outside the table. *)
Definition cell (t : table) (r c : nat) : Z := nth c (nth r t []) 0.

Definition row (r : nat) (t : table) : list Z := nth r t [].
Definition col (c : nat) (t : table) : list Z := map (fun r => nth c r 0) t.

Definition put_row (r : nat) (l : list Z) (t : table) : table :=
  replace_nth r l t.
Definition put_col (c : nat) (l : list Z) (t : table) : table :=
  map (fun p => replace_nth c (snd p) (fst p)) (combine t l).

Definition transpose (t : table) : table :=
  map (fun c => col c t) [0; 1; 2; 3]%nat.

Definition lsum (l : list Z) : Z := fold_right Z.add 0 l.
Definition grid_sum (t : table) : Z := lsum (map lsum t).

(** The scan of a single line held as a list: the loops of [LineScan] over
    [getitem] and [setitem].  [fwd] is the scan from index 0 (directions
    "a" and "w"). *)
Definition params (fwd : bool) : Z * Z * Z :=
  if fwd then (0, 3, 1) else (3, 0, -1).

Definition line_sum_run (fwd : bool) (s : list Z * Z) : result (list Z * Z) :=
  let '(idx_start, idx_end, iteration_factor) := params fwd in
  sum_line (@getitem Z) (@setitem Z) idx_start idx_end iteration_factor s.

Definition line_move_run (fwd : bool) (s : list Z * bool)
  : result (list Z * bool) :=
  let '(idx_start, idx_end, iteration_factor) := params fwd in
  move_line (@getitem Z) (@setitem Z) idx_start idx_end iteration_factor s.

Definition line_sum (fwd : bool) (l : list Z) : list Z * Z :=
  match line_sum_run fwd (l, 0) with
  | Ok r => r
  | Raise _ => (l, 0)
  end.

Definition line_move (fwd : bool) (l : list Z) : list Z * bool :=
  match line_move_run fwd (l, false) with
  | Ok r => r
  | Raise _ => (l, false)
  end.

Definition merged (fwd : bool) (l : list Z) : list Z := fst (line_sum fwd l).
Definition gain (fwd : bool) (l : list Z) : Z := snd (line_sum fwd l).
Definition packed (fwd : bool) (l : list Z) : list Z := fst (line_move fwd l).
Definition slid (fwd : bool) (l : list Z) : bool := snd (line_move fwd l).

(** The table of the docstring examples. *)
Definition doc_table : table :=
  [[4; 2; 2; 0]; [2; 2; 2; 0]; [2; 2; 2; 2]; [0; 2; 2; 2]].

(** ** Notions used to state the properties *)

Definition nonzero (x : Z) : bool := negb (x =? 0).

(** The tiles of a line, in order. *)
Definition nonzeros (l : list Z) : list Z := filter nonzero l.

(** The line with its tiles packed, in order, against the edge a scan
    starts from: index 0 for a forward scan, the last index otherwise. *)
Definition pack (fwd : bool) (l : list Z) : list Z :=
  let gap := repeat 0 (List.length l - List.length (nonzeros l))%nat in
  if fwd then nonzeros l ++ gap else gap ++ nonzeros l.

(** A cell of the game: empty, or a power of two that is at least 2. *)
Definition valid_cell (x : Z) : Prop :=
  x = 0 \/ exists k : nat, (1 <= k)%nat /\ x = 2 ^ Z.of_nat k.

Definition valid_cellb (x : Z) : bool :=
  (x =? 0) || ((2 <=? x) && (x =? 2 ^ Z.log2 x)).

Definition grid_invariant (t : table) : Prop :=
  wf_table t /\ Forall (Forall valid_cell) t.

Definition grid_invariantb (t : table) : bool :=
  wf_tableb t && forallb (forallb valid_cellb) t.

Definition nonneg_table (t : table) : Prop :=
  Forall (Forall (fun x => 0 <= x)) t.

(** The value of the tile that a phase removed from a cell: [x] when the
    cell held the tile [x] before and is empty after, 0 otherwise.  The sum
    phase empties a cell exactly when it merges the tile of that cell into
    an equal one, so these are the values [v] of the merged pairs. *)
Definition vanished (x x' : Z) : Z :=
  if nonzero x && (x' =? 0) then x else 0.

Definition line_vanished (l l' : list Z) : Z :=
  lsum (map (fun p => vanished (fst p) (snd p)) (combine l l')).

Definition merged_total (t t' : table) : Z :=
  lsum (map (fun p => line_vanished (fst p) (snd p)) (combine t t')).

(** ** Directions, lines and phases *)

Definition h_dir (fwd : bool) : string := if fwd then "a" else "d".

Definition v_dir (fwd : bool) : string := if fwd then "w" else "s".

(** The lines scanned by a push: the rows, or the columns of a vertical
    push. *)
Definition lines (vertical : bool) (t : table) : table :=
  if vertical then transpose t else t.

Definition on_lines (vertical : bool) (f : list Z -> list Z) (t : table)
  : table :=
  lines vertical (map f (lines vertical t)).

(** The key of a push: "W" and "S" are vertical, "A" and "W" scan from
    index 0. *)
Definition key (vertical fwd : bool) : string :=
  if vertical then (if fwd then "W" else "S") else (if fwd then "A" else "D").

Definition valid_direction (direction : string) : Prop :=
  In direction ["W"; "A"; "S"; "D"].

(** The two phases run by [push_blocks] for a key. *)
Definition sum_phase (t : table) (vertical fwd : bool) : result (table * Z) :=
  if vertical then _vertical_sum t (v_dir fwd)
  else _horizontal_sum t (h_dir fwd).

Definition move_phase (t : table) (vertical fwd : bool)
  : result (table * bool) :=
  if vertical then _vertical_move t (v_dir fwd)
  else _horizontal_move t (h_dir fwd).

(** ** Cells addressed by the indices of the source *)

Definition cellz (t : table) (r c : Z) : Z :=
  cell t (Z.to_nat r) (Z.to_nat c).

(** The indices of the empty cells, in row-major order. *)
Definition empty_cells (t : table) : list (Z * Z) :=
  flat_map
    (fun r =>
       flat_map (fun c => if cellz t r c =? 0 then [(r, c)] else [])
                [0; 1; 2; 3])
    [0; 1; 2; 3].

Definition has_empty (t : table) : bool :=
  existsb (fun r => existsb (fun c => cellz t r c =? 0) [0; 1; 2; 3])
          [0; 1; 2; 3].

Definition has_equal_in_row (t : table) : bool :=
  existsb (fun r => existsb (fun c => cellz t r c =? cellz t r (c + 1))
                            [0; 1; 2])
          [0; 1; 2; 3].

Definition has_equal_in_col (t : table) : bool :=
  existsb (fun c => existsb (fun r => cellz t r c =? cellz t (r + 1) c)
                            [0; 1; 2])
          [0; 1; 2; 3].

(** ** Keys, pivots and scan order *)

(** The axis and the scan of a key of [push_blocks]. *)
Definition is_vertical (direction : string) : bool :=
  str_in direction ["W"; "S"].
Definition is_forward (direction : string) : bool :=
  str_in direction ["W"; "A"].

(** The pivots [idx] visited by the scan of a line, in order. *)
Definition pivots (direction forward : string) : list Z :=
  let '(idx_start, idx_end, iteration_factor) :=
    scan_params direction forward in
  range idx_start idx_end iteration_factor.

Fixpoint ascending (l : list Z) : bool :=
  match l with
  | x :: (y :: _) as l' => (x <? y) && ascending l'
  | _ => true
  end.

Fixpoint descending (l : list Z) : bool :=
  match l with
  | x :: (y :: _) as l' => (y <? x) && descending l'
  | _ => true
  end.

(** ** The scans as the specification words them

    Sections 4.1 and 4.2 of the specification, on one line held as a list,
    written without the loops of the source: the pivots are visited in the
    order of the list [order], and for each pivot the cursor walks over
    [cursors], the positions ahead of it up to the far edge.  These
    definitions are compared with the source's loops; they say in which
    order the source visits the pivots, since another order gives another
    result. *)

Definition cell_at (l : list Z) (i : Z) : Z := nth (Z.to_nat i) l 0.

Definition put_at (l : list Z) (i : Z) (v : Z) : list Z :=
  replace_nth (Z.to_nat i) v l.

(** The positions ahead of the pivot [idx], from the nearest to the far
    edge: the indices above [idx] for the step 1, those below for the
    step -1. *)
Definition cursors (step idx : Z) : list Z :=
  if 0 <? step then filter (fun c => idx <? c) [0; 1; 2; 3]
  else filter (fun c => c <? idx) [3; 2; 1; 0].

(** The walk of the cursor of the merge: a gap is looked through, an equal
    tile is merged into the pivot and scored, another tile blocks. *)
Fixpoint spec_merge_walk (idx : Z) (cs : list Z) (s : list Z * Z)
  : list Z * Z :=
  match cs with
  | [] => s
  | cursor :: cs' =>
      let '(l, score) := s in
      if cell_at l cursor =? 0 then spec_merge_walk idx cs' s
      else if cell_at l cursor =? cell_at l idx then
        (put_at (put_at l idx (cell_at l idx * 2)) cursor 0,
         score + cell_at l idx * 2)
      else s
  end.

Definition spec_merge_pivot (step : Z) (s : list Z * Z) (idx : Z)
  : list Z * Z :=
  if cell_at (fst s) idx =? 0 then s
  else spec_merge_walk idx (cursors step idx) s.

Definition spec_merge (order : list Z) (step : Z) (l : list Z)
  : list Z * Z :=
  fold_left (spec_merge_pivot step) order (l, 0).

(** The walk of the cursor of the compaction: the first tile found is
    swapped with the empty pivot. *)
Fixpoint spec_compact_walk (idx : Z) (cs : list Z) (s : list Z * bool)
  : list Z * bool :=
  match cs with
  | [] => s
  | cursor :: cs' =>
      let '(l, changed) := s in
      if cell_at l cursor =? 0 then spec_compact_walk idx cs' s
      else
        (put_at (put_at l idx (cell_at l cursor)) cursor (cell_at l idx),
         true)
  end.

Definition spec_compact_pivot (step : Z) (s : list Z * bool) (idx : Z)
  : list Z * bool :=
  if cell_at (fst s) idx =? 0 then spec_compact_walk idx (cursors step idx) s
  else s.

Definition spec_compact (order : list Z) (step : Z) (l : list Z)
  : list Z * bool :=
  fold_left (spec_compact_pivot step) order (l, false).

(** The order in which the source visits the pivots, and the step of its
    cursor: ascending from index 0 for left and up ([fwd]), descending
    from index 3 for right and down. *)
Definition scan_order (fwd : bool) : list Z :=
  if fwd then [0; 1; 2] else [3; 2; 1].

Definition scan_step (fwd : bool) : Z := if fwd then 1 else -1.

(** ** Grids used as examples *)

Definition checkerboard : table :=
  [[2; 4; 2; 4]; [4; 2; 4; 2]; [2; 4; 2; 4]; [4; 2; 4; 2]].

Definition merge_only_table : table :=
  [[2; 2; 0; 0]; [0; 0; 0; 0]; [0; 0; 0; 0]; [0; 0; 0; 0]].

Definition merge_only_result : table :=
  [[4; 0; 0; 0]; [0; 0; 0; 0]; [0; 0; 0; 0]; [0; 0; 0; 0]].

Definition sample_table : table :=
  [[2; 2; 4; 8]; [0; 4; 0; 4]; [16; 0; 0; 16]; [2; 4; 8; 16]].

Definition full_table : table :=
  [[2; 4; 2; 4]; [4; 2; 4; 2]; [2; 4; 2; 4]; [4; 2; 4; 8]].

Definition one_gap_table : table :=
  [[2; 4; 2; 4]; [4; 2; 0; 2]; [2; 4; 2; 4]; [4; 2; 4; 8]].


Definition spec_example : table :=
  [[4; 2; 2; 0]; [0; 0; 0; 0]; [0; 0; 0; 0]; [0; 0; 0; 0]].

Definition spec_example_pushed : table :=
  [[4; 4; 0; 0]; [0; 0; 0; 0]; [0; 0; 0; 0]; [0; 0; 0; 0]].

Definition quiet_table : table :=
  [[2; 0; 4; 0]; [0; 8; 0; 2]; [4; 0; 0; 0]; [0; 0; 16; 0]].

Definition three_twos : table :=
  [[2; 2; 2; 0]; [0; 0; 0; 0]; [0; 0; 0; 0]; [0; 0; 0; 0]].

(** Line [k] of the axis of a push. *)
Definition line (vertical : bool) (k : nat) (t : table) : list Z :=
  if vertical then col k t else row k t.

(** ** The result of the scan of a line, put back into the table

    [put l t] is the table [t] with the scanned line replaced by [l]. *)

Definition lift {A : Type} (put : list Z -> table -> table) (t : table)
  (r : result (list Z * A)) : result (table * A) :=
  '(l, a) <- r ;; Ok (put l t, a).

Definition lift_flow {A : Type} (put : list Z -> table -> table) (t : table)
  (r : result (flow (list Z * A))) : result (flow (table * A)) :=
  f <- r ;;
  Ok (match f with
      | Next (l, a) => Next (put l t, a)
      | Break (l, a) => Break (put l t, a)
      end).

Definition keeps_length {A : Type} (f : flow (list Z * A)) : Prop :=
  match f with
  | Next (l, _) | Break (l, _) => List.length l = 4%nat
  end.

(** ** Notions used by the further properties *)

(** The grid mirrored left to right. *)
Definition mirror (t : table) : table := map (@rev Z) t.

(** A push of one line: the merge, then the compaction. *)
Definition pushed (fwd : bool) (l : list Z) : list Z :=
  packed fwd (merged fwd l).

Definition stuck_table : table :=
  [[2; 4; 2; 4]; [4; 2; 4; 2]; [2; 4; 2; 4]; [4; 2; 4; 8]].

Definition almost_won_table : table :=
  [[1024; 1024; 0; 0]; [2; 4; 0; 0]; [0; 0; 0; 0]; [0; 0; 0; 0]].

(** The sixteen positions of the grid, in row-major order. *)
Definition all_positions : list (Z * Z) :=
  flat_map (fun r => map (pair r) [0; 1; 2; 3]) [0; 1; 2; 3].

Definition empty_at (t : table) (p : Z * Z) : bool :=
  cellz t (fst p) (snd p) =? 0.

(** ** The match of [game.py]

    [game_match] reads the keys of the player through
    [safe_input_choice] and draws the new tiles at random; it shows the
    grid through [print_table], [print_win] and [print_lose] of the user
    interface.  Here [inputs] holds the successive results of
    [safe_input_choice], [draws n] the two random draws of the [n]-th call
    of [insert_block], and the calls of the user interface are recorded,
    with their arguments, in the list [screen].

    The calls of the user interface and of [input] reach the terminal and
    can raise there (no terminal, an interrupt); the match catches none of
    that, so such an exception ends it at that call.  The result [None]
    stands for a match that does not return: it is stopped at the terminal
    after the last screen recorded, by an exception of that call or of the
    next [input], or by an input that never comes.  A run stopped after
    [k] inputs is the run on the list of these [k] inputs.  What is left
    of [Raise] is an exception of the grid functions themselves. *)

Definition status : Type := string * Z * Z.
Definition config : Type := Z * bool.

Inductive ui_call : Type :=
| PrintTable (t : table) (s : status) (c : config)
| PrintWin (t : table) (s : status) (c : config)
| PrintLose (t : table) (s : status) (c : config).

(** The tuple returned by a match: player, score, moves and whether the
    player asked for another match. *)
Definition match_result : Type := string * Z * Z * bool.

Fixpoint end_of_match (inputs : list string) (t : table) (s : status)
  (c : config) (has_won : bool) (screen : list ui_call)
  : option match_result * list ui_call :=
  let '(player, score, moves) := s in
  let screen :=
    screen ++ [if has_won then PrintWin t s c else PrintLose t s c] in
  match inputs with
  | [] => (None, screen)
  | choice :: rest =>
      if String.eqb choice "R" then (Some (player, score, moves, true), screen)
      else if String.eqb choice "Q" then
        (Some (player, score, moves, false), screen)
      else end_of_match rest t s c has_won screen
  end.

(** The [while True] loop of [game_match]; [n] counts the calls of
    [insert_block] made so far. *)
Fixpoint match_loop (inputs : list string) (draws : nat -> nat * nat)
  (n : nat) (c : config) (player : string) (t : table) (score moves : Z)
  (screen : list ui_call) : result (option match_result * list ui_call) :=
  let s := (player, score, moves) in
  let screen := screen ++ [PrintTable t s c] in
  match inputs with
  | [] => Ok (None, screen)
  | direction :: rest =>
      if String.eqb direction "R" then
        Ok (Some (player, score, moves, true), screen)
      else if String.eqb direction "Q" then
        Ok (Some (player, score, moves, false), screen)
      else if str_in direction ["W"; "A"; "S"; "D"] then
        '(t1, (turn_score, turn_moves)) <- push_blocks t direction ;;
        let score := score + turn_score in
        let moves := moves + (if turn_moves then 1 else 0) in
        let s := (player, score, moves) in
        if has_won t1 then Ok (end_of_match rest t1 s c true screen)
        else
          movable <- can_move t1 ;;
          if negb movable then Ok (end_of_match rest t1 s c false screen)
          else if turn_moves || negb (turn_score =? 0) then
            t2 <- insert_block (fst (draws n)) (snd (draws n)) t1 ;;
            match_loop rest draws (S n) c player t2 score moves screen
          else match_loop rest draws n c player t1 score moves screen
      else match_loop rest draws n c player t score moves screen
  end.

(** The grid a match starts from: [new_table] and two calls of
    [insert_block]. *)
Definition game_setup (draws : nat -> nat * nat) : result table :=
  for_each (range 0 2 1)
    (fun i t =>
       insert_block (fst (draws (Z.to_nat i))) (snd (draws (Z.to_nat i))) t)
    new_table.

Definition game_match (inputs : list string) (draws : nat -> nat * nat)
  (lang : Z) (ascii : bool) (player : string)
  : result (option match_result * list ui_call) :=
  t <- game_setup draws ;;
  match_loop inputs draws 2 (lang, ascii) player t 0 0 [].

(** What a call of the user interface shows. *)
Definition shown_table (u : ui_call) : table :=
  match u with
  | PrintTable t _ _ | PrintWin t _ _ | PrintLose t _ _ => t
  end.

Definition shown_status (u : ui_call) : status :=
  match u with
  | PrintTable _ s _ | PrintWin _ s _ | PrintLose _ s _ => s
  end.

Definition is_lose (u : ui_call) : bool :=
  match u with
  | PrintLose _ _ _ => true
  | _ => false
  end.

(** A screen of a match is sound when it shows a grid that satisfies the
    grid invariant, with a score that is a non-negative multiple of 4 and a
    non-negative count of moves; the screen of a win shows a grid with the
    2048 tile, the screen of a defeat a grid without it on which no move
    is left. *)
Definition sound_screen (u : ui_call) : Prop :=
  grid_invariant (shown_table u)
  /\ (let '(_, score, moves) := shown_status u in
      0 <= score /\ (4 | score) /\ 0 <= moves)
  /\ match u with
     | PrintTable _ _ _ => True
     | PrintWin t _ _ => has_won t = true
     | PrintLose t _ _ => has_won t = false /\ can_move t = Ok false
     end.

(** Every defeat is shown after a screen of the same grid and status. *)
Fixpoint lose_repeats (screen : list ui_call) : Prop :=
  match screen with
  | u :: (v :: _) as rest =>
      (is_lose v = true ->
       shown_table v = shown_table u /\ shown_status v = shown_status u)
      /\ lose_repeats rest
  | _ => True
  end.

(** What the loop of a match returns when it was entered with [moves0]
    counted moves after [shown0] screens and is given [given] inputs: the
    player of the match, a score that is a non-negative multiple of 4, at
    most one more counted move per further screen but the last, no more
    further screens than inputs, and the score and moves of the last
    screen.  When the inputs run out, every input was followed by a
    screen. *)
Definition loop_result (player : string) (moves0 : Z) (shown0 given : nat)
  (screen : list ui_call) (res : option match_result) : Prop :=
  match res with
  | Some (p, score, moves, _) =>
      p = player /\ 0 <= score /\ (4 | score)
      /\ moves0 <= moves
      /\ moves + Z.of_nat shown0 < moves0 + Z.of_nat (List.length screen)
      /\ (List.length screen <= shown0 + given)%nat
      /\ exists front u,
           screen = front ++ [u] /\ shown_status u = (p, score, moves)
  | None => List.length screen = S (shown0 + given)
  end.

(** The tuple returned by a match that was given [given] inputs: the
    player of the match, a score that is a non-negative multiple of 4,
    fewer counted moves than screens shown, no more screens than inputs,
    and the score and moves of the last screen.  When the match does not
    return, it has shown one screen more than it was given inputs. *)
Definition sound_result (player : string) (given : nat)
  (screen : list ui_call) (res : option match_result) : Prop :=
  match res with
  | Some (p, score, moves, _) =>
      p = player /\ 0 <= score /\ (4 | score)
      /\ 0 <= moves < Z.of_nat (List.length screen)
      /\ (List.length screen <= given)%nat
      /\ exists front u,
           screen = front ++ [u] /\ shown_status u = (p, score, moves)
  | None => List.length screen = S given
  end.

(** The keys that end a match or its last screen. *)
Definition leaves (choice : string) : bool :=
  String.eqb choice "R" || String.eqb choice "Q".

(** * Properties *)

(** ** The docstring examples of the source *)

Example doc_horizontal_sum_a :
  _horizontal_sum doc_table "a"
  = Ok ([[4; 4; 0; 0]; [4; 0; 2; 0]; [4; 0; 4; 0]; [0; 4; 0; 2]], 20).
Proof. vm_compute. reflexivity. Qed.

Example doc_horizontal_sum_d :
  _horizontal_sum doc_table "d"
  = Ok ([[4; 0; 4; 0]; [2; 0; 4; 0]; [0; 4; 0; 4]; [0; 2; 0; 4]], 20).
Proof. vm_compute. reflexivity. Qed.

Example doc_vertical_sum_w :
  _vertical_sum doc_table "w"
  = Ok ([[4; 4; 4; 0]; [4; 0; 0; 0]; [0; 4; 4; 4]; [0; 0; 0; 0]], 24).
Proof. vm_compute. reflexivity. Qed.

Example doc_vertical_sum_s :
  _vertical_sum doc_table "s"
  = Ok ([[4; 0; 0; 0]; [0; 4; 4; 0]; [4; 0; 0; 0]; [0; 4; 4; 4]], 24).
Proof. vm_compute. reflexivity. Qed.

Example doc_horizontal_move_a :
  _horizontal_move [[4; 4; 0; 0]; [4; 0; 2; 0]; [4; 0; 4; 0]; [0; 4; 0; 2]] "a"
  = Ok ([[4; 4; 0; 0]; [4; 2; 0; 0]; [4; 4; 0; 0]; [4; 2; 0; 0]], true).
Proof. vm_compute. reflexivity. Qed.

Example doc_vertical_move_s :
  _vertical_move [[4; 0; 0; 0]; [0; 4; 4; 0]; [4; 0; 0; 0]; [0; 4; 4; 4]] "s"
  = Ok ([[0; 0; 0; 0]; [0; 0; 0; 0]; [4; 4; 4; 0]; [4; 4; 4; 4]], true).
Proof. vm_compute. reflexivity. Qed.

Example doc_push_blocks_a :
  push_blocks doc_table "A"
  = Ok ([[4; 4; 0; 0]; [4; 2; 0; 0]; [4; 4; 0; 0]; [4; 2; 0; 0]], (20, true)).
Proof. vm_compute. reflexivity. Qed.

Example doc_push_blocks_s :
  push_blocks [[0; 0; 8; 8]; [0; 0; 0; 2]; [0; 0; 8; 8]; [0; 0; 0; 2]] "S"
  = Ok ([[0; 0; 0; 8]; [0; 0; 0; 2]; [0; 0; 0; 8]; [0; 0; 16; 2]], (16, true)).
Proof. vm_compute. reflexivity. Qed.

Example doc_get_empty_indexes :
  _get_empty_indexes [[4; 2; 2; 0]; [2; 2; 2; 0]; [0; 2; 2; 0]; [2; 0; 2; 0]]
  = Ok [(0, 3); (1, 3); (2, 0); (2, 3); (3, 1); (3, 3)].
Proof. vm_compute. reflexivity. Qed.

(** ** Lists and indexing *)

Lemma replace_nth_length {A : Type} (n : nat) (x : A) (l : list A) :
  List.length (replace_nth n x l) = List.length l.
Proof.
  revert n; induction l as [|h t IH]; intros [|n]; simpl; auto.
Qed.

Lemma setitem_length {A : Type} (l l' : list A) (i : Z) (x : A) :
  setitem l i x = Ok l' -> List.length l' = List.length l.
Proof.
  unfold setitem; destruct (py_index _ i); simpl; intros E; inversion E.
  apply replace_nth_length.
Qed.

Lemma wf_tableb_sound (t : table) : wf_tableb t = true -> wf_table t.
Proof.
  unfold wf_tableb, wf_table; intros H.
  apply andb_prop in H as [H1 H2]; split.
  - now apply Nat.eqb_eq.
  - apply Forall_forall; intros r Hr.
    rewrite forallb_forall in H2. now apply Nat.eqb_eq, H2.
Qed.

Lemma length4 {A : Type} (l : list A) :
  List.length l = 4%nat -> exists a b c d, l = [a; b; c; d].
Proof.
  destruct l as [|a [|b [|c [|d [|e l]]]]]; try discriminate.
  intros _; now exists a, b, c, d.
Qed.

Lemma wf_table_shape (t : table) :
  wf_table t ->
  exists a0 a1 a2 a3 b0 b1 b2 b3 c0 c1 c2 c3 d0 d1 d2 d3,
    t = [[a0; a1; a2; a3]; [b0; b1; b2; b3];
         [c0; c1; c2; c3]; [d0; d1; d2; d3]].
Proof.
  intros [Hl Hr].
  destruct (length4 _ Hl) as (ra & rb & rc & rd & ->); clear Hl.
  repeat match goal with
         | H : Forall _ (_ :: _) |- _ => inversion H; subst; clear H
         end.
  repeat match goal with
         | H : List.length ?l = 4%nat |- _ =>
             destruct (length4 _ H) as (? & ? & ? & ? & ->); clear H
         end.
  repeat eexists.
Qed.

Lemma wf_table_intro (r0 r1 r2 r3 : list Z) :
  List.length r0 = 4%nat -> List.length r1 = 4%nat ->
  List.length r2 = 4%nat -> List.length r3 = 4%nat ->
  wf_table [r0; r1; r2; r3].
Proof.
  intros; split; [reflexivity | repeat constructor; assumption].
Qed.

(** Destructs a well-formed table into its sixteen cells. *)
Ltac table_cells H :=
  let a0 := fresh "a0" in let a1 := fresh "a1" in
  let a2 := fresh "a2" in let a3 := fresh "a3" in
  let b0 := fresh "b0" in let b1 := fresh "b1" in
  let b2 := fresh "b2" in let b3 := fresh "b3" in
  let c0 := fresh "c0" in let c1 := fresh "c1" in
  let c2 := fresh "c2" in let c3 := fresh "c3" in
  let d0 := fresh "d0" in let d1 := fresh "d1" in
  let d2 := fresh "d2" in let d3 := fresh "d3" in
  destruct (wf_table_shape _ H)
    as (a0 & a1 & a2 & a3 & b0 & b1 & b2 & b3 &
        c0 & c1 & c2 & c3 & d0 & d1 & d2 & d3 & ->).

(** ** Symbolic execution of the scan of a four-cell line *)

Section Item4.
Context {A : Type} (a b c d : A).

Lemma getitem4_0 : getitem [a; b; c; d] 0 = Ok a.
Proof. reflexivity. Qed.
Lemma getitem4_1 : getitem [a; b; c; d] 1 = Ok b.
Proof. reflexivity. Qed.
Lemma getitem4_2 : getitem [a; b; c; d] 2 = Ok c.
Proof. reflexivity. Qed.
Lemma getitem4_3 : getitem [a; b; c; d] 3 = Ok d.
Proof. reflexivity. Qed.
Lemma setitem4_0 (v : A) : setitem [a; b; c; d] 0 v = Ok [v; b; c; d].
Proof. reflexivity. Qed.
Lemma setitem4_1 (v : A) : setitem [a; b; c; d] 1 v = Ok [a; v; c; d].
Proof. reflexivity. Qed.
Lemma setitem4_2 (v : A) : setitem [a; b; c; d] 2 v = Ok [a; b; v; d].
Proof. reflexivity. Qed.
Lemma setitem4_3 (v : A) : setitem [a; b; c; d] 3 v = Ok [a; b; c; v].
Proof. reflexivity. Qed.
End Item4.

(** The pivots and cursors visited by the two scans, with the [range]s
    evaluated. *)
Section Unroll.
Context {St : Type}.
Variable rd : St -> Z -> result Z.
Variable wr : St -> Z -> Z -> result St.

Lemma sum_line_fwd (s : St * Z) :
  sum_line rd wr 0 3 1 s =
  (s1 <- (last <- rd (fst s) 0 ;;
          for_break [1; 2; 3] (sum_cursor_body rd wr 0 last) s) ;;
   s2 <- (last <- rd (fst s1) 1 ;;
          for_break [2; 3] (sum_cursor_body rd wr 1 last) s1) ;;
   s3 <- (last <- rd (fst s2) 2 ;;
          for_break [3] (sum_cursor_body rd wr 2 last) s2) ;;
   Ok s3).
Proof. reflexivity. Qed.

Lemma sum_line_bwd (s : St * Z) :
  sum_line rd wr 3 0 (-1) s =
  (s1 <- (last <- rd (fst s) 3 ;;
          for_break [2; 1; 0] (sum_cursor_body rd wr 3 last) s) ;;
   s2 <- (last <- rd (fst s1) 2 ;;
          for_break [1; 0] (sum_cursor_body rd wr 2 last) s1) ;;
   s3 <- (last <- rd (fst s2) 1 ;;
          for_break [0] (sum_cursor_body rd wr 1 last) s2) ;;
   Ok s3).
Proof. reflexivity. Qed.

Lemma move_line_fwd (s : St * bool) :
  move_line rd wr 0 3 1 s =
  (s1 <- (pivot <- rd (fst s) 0 ;;
          if negb (pivot =? 0) then Ok s
          else for_break [1; 2; 3] (move_cursor_body rd wr 0) s) ;;
   s2 <- (pivot <- rd (fst s1) 1 ;;
          if negb (pivot =? 0) then Ok s1
          else for_break [2; 3] (move_cursor_body rd wr 1) s1) ;;
   s3 <- (pivot <- rd (fst s2) 2 ;;
          if negb (pivot =? 0) then Ok s2
          else for_break [3] (move_cursor_body rd wr 2) s2) ;;
   Ok s3).
Proof. reflexivity. Qed.

Lemma move_line_bwd (s : St * bool) :
  move_line rd wr 3 0 (-1) s =
  (s1 <- (pivot <- rd (fst s) 3 ;;
          if negb (pivot =? 0) then Ok s
          else for_break [2; 1; 0] (move_cursor_body rd wr 3) s) ;;
   s2 <- (pivot <- rd (fst s1) 2 ;;
          if negb (pivot =? 0) then Ok s1
          else for_break [1; 0] (move_cursor_body rd wr 2) s1) ;;
   s3 <- (pivot <- rd (fst s2) 1 ;;
          if negb (pivot =? 0) then Ok s2
          else for_break [0] (move_cursor_body rd wr 1) s2) ;;
   Ok s3).
Proof. reflexivity. Qed.
End Unroll.

(** A test on cell values that a hypothesis decides. *)
Ltac known_test :=
  match goal with
  | H : ?x <> ?y |- context [Z.eqb ?x ?y] =>
      rewrite (proj2 (Z.eqb_neq x y) H)
  | H : ?y <> ?x |- context [Z.eqb ?x ?y] =>
      rewrite (proj2 (Z.eqb_neq x y) (not_eq_sym H))
  end.

(** One step of the execution of a scan over a list of four cells; a test
    on cell values that no hypothesis decides splits the goal. *)
Ltac line_step :=
  first
    [ rewrite getitem4_0 | rewrite getitem4_1 | rewrite getitem4_2
    | rewrite getitem4_3 | rewrite setitem4_0 | rewrite setitem4_1
    | rewrite setitem4_2 | rewrite setitem4_3
    | rewrite Z.eqb_refl
    | progress cbn [bind fst snd for_break for_each negb
                    sum_cursor_body move_cursor_body]
    | known_test
    | match goal with
      | |- context [Z.eqb ?x ?y] =>
          destruct (Z.eqb_spec x y); try (exfalso; lia); subst
      end ].

Ltac line_exec :=
  unfold merged, gain, packed, slid, line_sum, line_move,
    line_sum_run, line_move_run, params;
  rewrite ?sum_line_fwd, ?sum_line_bwd, ?move_line_fwd, ?move_line_bwd;
  repeat line_step.

Lemma line_sum_run_ok (fwd : bool) (l : list Z) (acc : Z) :
  List.length l = 4%nat ->
  line_sum_run fwd (l, acc) = Ok (merged fwd l, acc + gain fwd l).
Proof.
  intros Hl; destruct (length4 _ Hl) as (a & b & c & d & ->); clear Hl.
  destruct fwd; line_exec; f_equal; f_equal; lia.
Qed.

Lemma line_move_run_ok (fwd : bool) (l : list Z) (acc : bool) :
  List.length l = 4%nat ->
  line_move_run fwd (l, acc) = Ok (packed fwd l, acc || slid fwd l).
Proof.
  intros Hl; destruct (length4 _ Hl) as (a & b & c & d & ->); clear Hl.
  destruct fwd; line_exec; rewrite ?orb_true_r, ?orb_false_r; reflexivity.
Qed.

Lemma merged_length (fwd : bool) (l : list Z) :
  List.length l = 4%nat -> List.length (merged fwd l) = 4%nat.
Proof.
  intros Hl; destruct (length4 _ Hl) as (a & b & c & d & ->); clear Hl.
  destruct fwd; line_exec; reflexivity.
Qed.

Lemma packed_length (fwd : bool) (l : list Z) :
  List.length l = 4%nat -> List.length (packed fwd l) = 4%nat.
Proof.
  intros Hl; destruct (length4 _ Hl) as (a & b & c & d & ->); clear Hl.
  destruct fwd; line_exec; reflexivity.
Qed.

(** ** A line of the table seen as a list

    The accessors of a row or a column of a well-formed table behave as
    [getitem] and [setitem] on the list [view t] of that line, [put l t]
    being the table with the line replaced by [l].  Under these laws the
    scan of the line inside the table is the scan of the list. *)

Section Simulation.
Variable rd : table -> Z -> result Z.
Variable wr : table -> Z -> Z -> result table.
Variable view : table -> list Z.
Variable put : list Z -> table -> table.

Hypothesis rd_view :
  forall t i, wf_table t -> rd t i = getitem (view t) i.
Hypothesis wr_view :
  forall t i v, wf_table t ->
    wr t i v = (l <- setitem (view t) i v ;; Ok (put l t)).
Hypothesis view_length :
  forall t, wf_table t -> List.length (view t) = 4%nat.
Hypothesis view_put :
  forall t l, wf_table t -> List.length l = 4%nat -> view (put l t) = l.
Hypothesis wf_put :
  forall t l, wf_table t -> List.length l = 4%nat -> wf_table (put l t).
Hypothesis put_put :
  forall t l l', wf_table t -> List.length l = 4%nat ->
    put l' (put l t) = put l' t.
Hypothesis put_view : forall t, wf_table t -> put (view t) t = t.

Lemma for_break_length {X A : Type} (xs : list X)
  (bl : X -> list Z * A -> result (flow (list Z * A))) :
  (forall x l a f, List.length l = 4%nat -> bl x (l, a) = Ok f ->
                   keeps_length f) ->
  forall l a l' a', List.length l = 4%nat ->
    for_break xs bl (l, a) = Ok (l', a') -> List.length l' = 4%nat.
Proof.
  intros Hb; induction xs as [|x xs IH]; simpl; intros l a l' a' Hl E.
  - now inversion E; subst.
  - destruct (bl x (l, a)) as [f|e] eqn:Ef; simpl in E; [|discriminate].
    pose proof (Hb _ _ _ _ Hl Ef) as Hf.
    destruct f as [[l1 a1]|[l1 a1]]; simpl in Hf, E.
    + eapply IH; eauto.
    + now inversion E; subst.
Qed.

Lemma for_each_length {X A : Type} (xs : list X)
  (bl : X -> list Z * A -> result (list Z * A)) :
  (forall x l a l' a', List.length l = 4%nat -> bl x (l, a) = Ok (l', a') ->
                       List.length l' = 4%nat) ->
  forall l a l' a', List.length l = 4%nat ->
    for_each xs bl (l, a) = Ok (l', a') -> List.length l' = 4%nat.
Proof.
  intros Hb; induction xs as [|x xs IH]; simpl; intros l a l' a' Hl E.
  - now inversion E; subst.
  - destruct (bl x (l, a)) as [[l1 a1]|e] eqn:Ef; simpl in E; [|discriminate].
    eapply IH; [|eassumption]. eapply Hb; eauto.
Qed.

Lemma sim_for_break {X A : Type} (xs : list X)
  (bt : X -> table * A -> result (flow (table * A)))
  (bl : X -> list Z * A -> result (flow (list Z * A))) :
  (forall x t a, wf_table t -> bt x (t, a) = lift_flow put t (bl x (view t, a))) ->
  (forall x l a f, List.length l = 4%nat -> bl x (l, a) = Ok f ->
                   keeps_length f) ->
  forall t a, wf_table t ->
    for_break xs bt (t, a) = lift put t (for_break xs bl (view t, a)).
Proof.
  intros Hsim Hlen; induction xs as [|x xs IH]; intros t a Hwf; simpl.
  - now rewrite put_view.
  - rewrite Hsim by assumption. unfold lift_flow.
    destruct (bl x (view t, a)) as [f|e] eqn:Ef; simpl; [|reflexivity].
    pose proof (Hlen _ _ _ _ (view_length _ Hwf) Ef) as Hf.
    destruct f as [[l1 a1]|[l1 a1]]; simpl in Hf; simpl; [|reflexivity].
    rewrite IH by auto. rewrite view_put by assumption.
    unfold lift. destruct (for_break xs bl (l1, a1)) as [[l2 a2]|e]; simpl;
      [|reflexivity].
    now rewrite put_put.
Qed.

Lemma sim_for_each {X A : Type} (xs : list X)
  (bt : X -> table * A -> result (table * A))
  (bl : X -> list Z * A -> result (list Z * A)) :
  (forall x t a, wf_table t -> bt x (t, a) = lift put t (bl x (view t, a))) ->
  (forall x l a l' a', List.length l = 4%nat -> bl x (l, a) = Ok (l', a') ->
                       List.length l' = 4%nat) ->
  forall t a, wf_table t ->
    for_each xs bt (t, a) = lift put t (for_each xs bl (view t, a)).
Proof.
  intros Hsim Hlen; induction xs as [|x xs IH]; intros t a Hwf; simpl.
  - now rewrite put_view.
  - rewrite Hsim by assumption. unfold lift at 1.
    destruct (bl x (view t, a)) as [[l1 a1]|e] eqn:Ef; simpl; [|reflexivity].
    pose proof (Hlen _ _ _ _ _ (view_length _ Hwf) Ef) as Hf.
    rewrite IH by auto. rewrite view_put by assumption.
    unfold lift. destruct (for_each xs bl (l1, a1)) as [[l2 a2]|e]; simpl;
      [|reflexivity].
    now rewrite put_put.
Qed.

(** The line scans keep the length of the list. *)
Lemma sum_cursor_body_length (idx last cursor : Z) (l : list Z) (a : Z)
  (f : flow (list Z * Z)) :
  List.length l = 4%nat ->
  sum_cursor_body (@getitem Z) (@setitem Z) idx last cursor (l, a) = Ok f ->
  keeps_length f.
Proof.
  intros Hl; unfold sum_cursor_body.
  destruct (getitem l cursor) as [cur|]; simpl; [|discriminate].
  destruct (cur =? 0); [intros E; inversion E; exact Hl|].
  destruct (cur =? last); [|intros E; inversion E; exact Hl].
  destruct (getitem l idx) as [v|]; simpl; [|discriminate].
  destruct (setitem l idx (v * 2)) as [l1|] eqn:E1; simpl; [|discriminate].
  destruct (setitem l1 cursor 0) as [l2|] eqn:E2; simpl; [|discriminate].
  destruct (getitem l2 idx) as [v'|]; simpl; [|discriminate].
  intros E; inversion E; simpl.
  apply setitem_length in E1, E2. congruence.
Qed.

Lemma move_cursor_body_length (idx cursor : Z) (l : list Z) (a : bool)
  (f : flow (list Z * bool)) :
  List.length l = 4%nat ->
  move_cursor_body (@getitem Z) (@setitem Z) idx cursor (l, a) = Ok f ->
  keeps_length f.
Proof.
  intros Hl; unfold move_cursor_body.
  destruct (getitem l cursor) as [cur|]; simpl; [|discriminate].
  destruct (negb (cur =? 0)); [|intros E; inversion E; exact Hl].
  destruct (getitem l idx) as [v|]; simpl; [|discriminate].
  destruct (setitem l idx cur) as [l1|] eqn:E1; simpl; [|discriminate].
  destruct (setitem l1 cursor v) as [l2|] eqn:E2; simpl; [|discriminate].
  intros E; inversion E; simpl.
  apply setitem_length in E1, E2. congruence.
Qed.

Lemma sum_idx_body_length (e f idx : Z) (l l' : list Z) (a a' : Z) :
  List.length l = 4%nat ->
  sum_idx_body (@getitem Z) (@setitem Z) e f idx (l, a) = Ok (l', a') ->
  List.length l' = 4%nat.
Proof.
  intros Hl; unfold sum_idx_body; simpl.
  destruct (getitem l idx) as [last|]; simpl; [|discriminate].
  apply for_break_length; [|assumption].
  intros; eapply sum_cursor_body_length; eauto.
Qed.

Lemma move_idx_body_length (e f idx : Z) (l l' : list Z) (a a' : bool) :
  List.length l = 4%nat ->
  move_idx_body (@getitem Z) (@setitem Z) e f idx (l, a) = Ok (l', a') ->
  List.length l' = 4%nat.
Proof.
  intros Hl; unfold move_idx_body; simpl.
  destruct (getitem l idx) as [pivot|]; simpl; [|discriminate].
  destruct (negb (pivot =? 0)); [intros E; inversion E; subst; exact Hl|].
  apply for_break_length; [|assumption].
  intros; eapply move_cursor_body_length; eauto.
Qed.

(** The scan inside the table is the scan of the list. *)
Lemma sim_sum_cursor_body (idx last cursor : Z) (t : table) (a : Z) :
  wf_table t ->
  sum_cursor_body rd wr idx last cursor (t, a)
  = lift_flow put t
      (sum_cursor_body (@getitem Z) (@setitem Z) idx last cursor (view t, a)).
Proof.
  intros Hwf; unfold sum_cursor_body, lift_flow.
  rewrite rd_view by assumption.
  destruct (getitem (view t) cursor) as [cur|]; simpl; [|reflexivity].
  destruct (cur =? 0); simpl; [now rewrite put_view|].
  destruct (cur =? last); simpl; [|now rewrite put_view].
  rewrite rd_view by assumption.
  destruct (getitem (view t) idx) as [v|]; simpl; [|reflexivity].
  rewrite wr_view by assumption.
  destruct (setitem (view t) idx (v * 2)) as [l1|] eqn:E1; simpl;
    [|reflexivity].
  assert (H1 : List.length l1 = 4%nat)
    by (apply setitem_length in E1; rewrite E1; auto).
  rewrite wr_view, view_put by auto.
  destruct (setitem l1 cursor 0) as [l2|] eqn:E2; simpl; [|reflexivity].
  assert (H2 : List.length l2 = 4%nat)
    by (apply setitem_length in E2; congruence).
  rewrite put_put by assumption.
  rewrite rd_view, view_put by auto.
  destruct (getitem l2 idx) as [v'|]; reflexivity.
Qed.

Lemma sim_move_cursor_body (idx cursor : Z) (t : table) (a : bool) :
  wf_table t ->
  move_cursor_body rd wr idx cursor (t, a)
  = lift_flow put t
      (move_cursor_body (@getitem Z) (@setitem Z) idx cursor (view t, a)).
Proof.
  intros Hwf; unfold move_cursor_body, lift_flow.
  rewrite !rd_view by assumption.
  destruct (getitem (view t) cursor) as [cur|]; simpl; [|reflexivity].
  destruct (negb (cur =? 0)); simpl; [|now rewrite put_view].
  destruct (getitem (view t) idx) as [v|]; simpl; [|reflexivity].
  rewrite wr_view by assumption.
  destruct (setitem (view t) idx cur) as [l1|] eqn:E1; simpl; [|reflexivity].
  assert (H1 : List.length l1 = 4%nat)
    by (apply setitem_length in E1; rewrite E1; auto).
  rewrite wr_view, view_put by auto.
  destruct (setitem l1 cursor v) as [l2|] eqn:E2; simpl; [|reflexivity].
  now rewrite put_put.
Qed.

Lemma sim_sum_line (s e f : Z) (t : table) (a : Z) :
  wf_table t ->
  sum_line rd wr s e f (t, a)
  = lift put t (sum_line (@getitem Z) (@setitem Z) s e f (view t, a)).
Proof.
  intros Hwf; unfold sum_line.
  apply sim_for_each; [|intros; eapply sum_idx_body_length; eauto|assumption].
  intros idx t0 a0 Hwf0; unfold sum_idx_body; simpl.
  rewrite rd_view by assumption.
  destruct (getitem (view t0) idx) as [last|]; simpl; [|reflexivity].
  apply sim_for_break; [|intros; eapply sum_cursor_body_length; eauto|assumption].
  intros; now apply sim_sum_cursor_body.
Qed.

Lemma sim_move_line (s e f : Z) (t : table) (a : bool) :
  wf_table t ->
  move_line rd wr s e f (t, a)
  = lift put t (move_line (@getitem Z) (@setitem Z) s e f (view t, a)).
Proof.
  intros Hwf; unfold move_line.
  apply sim_for_each; [|intros; eapply move_idx_body_length; eauto|assumption].
  intros idx t0 a0 Hwf0; unfold move_idx_body; simpl.
  rewrite rd_view by assumption.
  destruct (getitem (view t0) idx) as [pivot|]; simpl; [|reflexivity].
  destruct (negb (pivot =? 0)); simpl; [now rewrite put_view|].
  apply sim_for_break; [|intros; eapply move_cursor_body_length; eauto|assumption].
  intros; now apply sim_move_cursor_body.
Qed.

(** On a well-formed table the scan of a line succeeds and rewrites only
    that line. *)
Lemma sum_line_lens (fwd : bool) (t : table) (a : Z) :
  wf_table t ->
  (let '(s, e, f) := params fwd in sum_line rd wr s e f (t, a))
  = Ok (put (merged fwd (view t)) t, a + gain fwd (view t)).
Proof.
  intros Hwf.
  pose proof (line_sum_run_ok fwd (view t) a (view_length _ Hwf)) as E.
  unfold line_sum_run in E.
  destruct (params fwd) as [[s e] f].
  now rewrite sim_sum_line, E.
Qed.

Lemma move_line_lens (fwd : bool) (t : table) (a : bool) :
  wf_table t ->
  (let '(s, e, f) := params fwd in move_line rd wr s e f (t, a))
  = Ok (put (packed fwd (view t)) t, a || slid fwd (view t)).
Proof.
  intros Hwf.
  pose proof (line_move_run_ok fwd (view t) a (view_length _ Hwf)) as E.
  unfold line_move_run in E.
  destruct (params fwd) as [[s e] f].
  now rewrite sim_move_line, E.
Qed.
End Simulation.

(** ** Rows and columns as lines *)

Section RowLine.
Variable k : nat.
Hypothesis Hk : (k < 4)%nat.

Lemma row_rd (t : table) (i : Z) :
  wf_table t -> get_cell t (Z.of_nat k) i = getitem (row k t) i.
Proof.
  intros Hwf; table_cells Hwf.
  destruct k as [|[|[|[|]]]]; try lia; reflexivity.
Qed.

Lemma row_wr (t : table) (i v : Z) :
  wf_table t ->
  set_cell t (Z.of_nat k) i v
  = (l <- setitem (row k t) i v ;; Ok (put_row k l t)).
Proof.
  intros Hwf; table_cells Hwf.
  destruct k as [|[|[|[|]]]]; try lia; unfold set_cell;
    cbn [Z.of_nat Pos.of_succ_nat Pos.succ row nth];
    rewrite ?getitem4_0, ?getitem4_1, ?getitem4_2, ?getitem4_3;
    cbn [bind];
    match goal with |- context [setitem ?r i v] => destruct (setitem r i v) end;
    reflexivity.
Qed.

Lemma row_length (t : table) :
  wf_table t -> List.length (row k t) = 4%nat.
Proof.
  intros Hwf; table_cells Hwf.
  destruct k as [|[|[|[|]]]]; try lia; reflexivity.
Qed.

Lemma row_put (t : table) (l : list Z) :
  wf_table t -> List.length l = 4%nat -> row k (put_row k l t) = l.
Proof.
  intros Hwf _; table_cells Hwf.
  destruct k as [|[|[|[|]]]]; try lia; reflexivity.
Qed.

Lemma wf_put_row (t : table) (l : list Z) :
  wf_table t -> List.length l = 4%nat -> wf_table (put_row k l t).
Proof.
  intros Hwf Hl; table_cells Hwf.
  destruct k as [|[|[|[|]]]]; try lia; now apply wf_table_intro.
Qed.

Lemma put_row_put_row (t : table) (l l' : list Z) :
  wf_table t -> List.length l = 4%nat ->
  put_row k l' (put_row k l t) = put_row k l' t.
Proof.
  intros Hwf _; table_cells Hwf.
  destruct k as [|[|[|[|]]]]; try lia; reflexivity.
Qed.

Lemma put_row_row (t : table) : wf_table t -> put_row k (row k t) t = t.
Proof.
  intros Hwf; table_cells Hwf.
  destruct k as [|[|[|[|]]]]; try lia; reflexivity.
Qed.
End RowLine.

Lemma py_index_lt (len i : Z) (j : nat) :
  py_index len i = Ok j -> (Z.of_nat j < len).
Proof.
  unfold py_index.
  destruct (_ && _) eqn:E; [|discriminate].
  intros H; inversion H; subst; clear H.
  apply andb_prop in E as [E1 E2].
  apply Z.leb_le in E1; apply Z.ltb_lt in E2.
  rewrite Z2Nat.id; assumption.
Qed.

Section ColLine.
Variable k : nat.
Hypothesis Hk : (k < 4)%nat.

Lemma col_rd (t : table) (i : Z) :
  wf_table t -> get_cell t i (Z.of_nat k) = getitem (col k t) i.
Proof.
  intros Hwf; table_cells Hwf.
  unfold get_cell, getitem at 1 3.
  change (Z.of_nat (List.length (col k _))) with 4.
  change (Z.of_nat (List.length [_; _; _; _])) with 4.
  destruct (py_index 4 i) as [j|]; [|reflexivity].
  destruct k as [|[|[|[|]]]]; try lia;
    destruct j as [|[|[|[|[|j]]]]]; reflexivity.
Qed.

Lemma col_wr (t : table) (i v : Z) :
  wf_table t ->
  set_cell t i (Z.of_nat k) v
  = (l <- setitem (col k t) i v ;; Ok (put_col k l t)).
Proof.
  intros Hwf; table_cells Hwf.
  unfold set_cell, getitem, setitem.
  change (Z.of_nat (List.length (col k _))) with 4.
  change (Z.of_nat (List.length [_; _; _; _])) with 4.
  destruct (py_index 4 i) as [j|] eqn:E; [|reflexivity].
  apply py_index_lt in E.
  destruct k as [|[|[|[|]]]]; try lia;
    destruct j as [|[|[|[|j]]]]; try lia; reflexivity.
Qed.

Lemma col_length (t : table) :
  wf_table t -> List.length (col k t) = 4%nat.
Proof. intros Hwf; table_cells Hwf; reflexivity. Qed.

Lemma col_put (t : table) (l : list Z) :
  wf_table t -> List.length l = 4%nat -> col k (put_col k l t) = l.
Proof.
  intros Hwf Hl; table_cells Hwf.
  destruct (length4 _ Hl) as (x0 & x1 & x2 & x3 & ->).
  destruct k as [|[|[|[|]]]]; try lia; reflexivity.
Qed.

Lemma wf_put_col (t : table) (l : list Z) :
  wf_table t -> List.length l = 4%nat -> wf_table (put_col k l t).
Proof.
  intros Hwf Hl; table_cells Hwf.
  destruct (length4 _ Hl) as (x0 & x1 & x2 & x3 & ->).
  destruct k as [|[|[|[|]]]]; try lia; now apply wf_table_intro.
Qed.

Lemma put_col_put_col (t : table) (l l' : list Z) :
  wf_table t -> List.length l = 4%nat ->
  put_col k l' (put_col k l t) = put_col k l' t.
Proof.
  intros Hwf Hl; table_cells Hwf.
  destruct (length4 _ Hl) as (x0 & x1 & x2 & x3 & ->).
  destruct l' as [|y0 [|y1 [|y2 [|y3 l']]]];
    destruct k as [|[|[|[|]]]]; try lia; reflexivity.
Qed.

Lemma put_col_col (t : table) : wf_table t -> put_col k (col k t) t = t.
Proof.
  intros Hwf; table_cells Hwf.
  destruct k as [|[|[|[|]]]]; try lia; reflexivity.
Qed.
End ColLine.

(** The scan of row [k] and of column [k] inside a well-formed table. *)
Lemma sum_line_row (fwd : bool) (k : nat) (t : table) (a : Z) :
  (k < 4)%nat -> wf_table t ->
  (let '(s, e, f) := params fwd in
   sum_line (fun tb idx => get_cell tb (Z.of_nat k) idx)
            (fun tb idx v => set_cell tb (Z.of_nat k) idx v) s e f (t, a))
  = Ok (put_row k (merged fwd (row k t)) t, a + gain fwd (row k t)).
Proof.
  intros Hk; apply sum_line_lens;
    eauto using row_rd, row_wr, row_length, row_put, wf_put_row,
      put_row_put_row, put_row_row.
Qed.

Lemma move_line_row (fwd : bool) (k : nat) (t : table) (a : bool) :
  (k < 4)%nat -> wf_table t ->
  (let '(s, e, f) := params fwd in
   move_line (fun tb idx => get_cell tb (Z.of_nat k) idx)
             (fun tb idx v => set_cell tb (Z.of_nat k) idx v) s e f (t, a))
  = Ok (put_row k (packed fwd (row k t)) t, a || slid fwd (row k t)).
Proof.
  intros Hk; apply move_line_lens;
    eauto using row_rd, row_wr, row_length, row_put, wf_put_row,
      put_row_put_row, put_row_row.
Qed.

Lemma sum_line_col (fwd : bool) (k : nat) (t : table) (a : Z) :
  (k < 4)%nat -> wf_table t ->
  (let '(s, e, f) := params fwd in
   sum_line (fun tb idx => get_cell tb idx (Z.of_nat k))
            (fun tb idx v => set_cell tb idx (Z.of_nat k) v) s e f (t, a))
  = Ok (put_col k (merged fwd (col k t)) t, a + gain fwd (col k t)).
Proof.
  intros Hk; apply sum_line_lens;
    eauto using col_rd, col_wr, col_length, col_put, wf_put_col,
      put_col_put_col, put_col_col.
Qed.

Lemma move_line_col (fwd : bool) (k : nat) (t : table) (a : bool) :
  (k < 4)%nat -> wf_table t ->
  (let '(s, e, f) := params fwd in
   move_line (fun tb idx => get_cell tb idx (Z.of_nat k))
             (fun tb idx v => set_cell tb idx (Z.of_nat k) v) s e f (t, a))
  = Ok (put_col k (packed fwd (col k t)) t, a || slid fwd (col k t)).
Proof.
  intros Hk; apply move_line_lens;
    eauto using col_rd, col_wr, col_length, col_put, wf_put_col,
      put_col_put_col, put_col_col.
Qed.

(** ** The phases as maps over the lines of the table *)

Create HintDb lines.
#[local] Hint Resolve wf_put_row wf_put_col merged_length packed_length
  row_length col_length : lines.
#[local] Hint Extern 1 (_ < _)%nat => lia : lines.

Ltac wf_lines := solve [auto 10 with lines].

(** Names the four cells of every scanned line in the goal. *)
Ltac line_shapes :=
  repeat
    (cbn [col row put_col put_row combine map nth replace_nth fst snd
          transpose];
     match goal with
     | |- context [merged ?f [?a; ?b; ?c; ?d]] =>
         let E := fresh "E" in
         destruct (length4 _ (merged_length f [a; b; c; d] eq_refl))
           as (? & ? & ? & ? & E);
         rewrite ?E
     | |- context [packed ?f [?a; ?b; ?c; ?d]] =>
         let E := fresh "E" in
         destruct (length4 _ (packed_length f [a; b; c; d] eq_refl))
           as (? & ? & ? & ? & E);
         rewrite ?E
     end).

Lemma horizontal_sum_unroll (fwd : bool) (t : table) :
  _horizontal_sum t (h_dir fwd) =
  (s1 <- (let '(s, e, f) := params fwd in
          sum_line (fun tb idx => get_cell tb (Z.of_nat 0) idx)
            (fun tb idx v => set_cell tb (Z.of_nat 0) idx v) s e f (t, 0)) ;;
   s2 <- (let '(s, e, f) := params fwd in
          sum_line (fun tb idx => get_cell tb (Z.of_nat 1) idx)
            (fun tb idx v => set_cell tb (Z.of_nat 1) idx v) s e f s1) ;;
   s3 <- (let '(s, e, f) := params fwd in
          sum_line (fun tb idx => get_cell tb (Z.of_nat 2) idx)
            (fun tb idx v => set_cell tb (Z.of_nat 2) idx v) s e f s2) ;;
   s4 <- (let '(s, e, f) := params fwd in
          sum_line (fun tb idx => get_cell tb (Z.of_nat 3) idx)
            (fun tb idx v => set_cell tb (Z.of_nat 3) idx v) s e f s3) ;;
   Ok s4).
Proof. destruct fwd; reflexivity. Qed.

Lemma horizontal_sum_lines (fwd : bool) (t : table) :
  wf_table t ->
  _horizontal_sum t (h_dir fwd)
  = Ok (map (merged fwd) t, lsum (map (gain fwd) t)).
Proof.
  intros Hwf. rewrite horizontal_sum_unroll.
  rewrite sum_line_row by wf_lines; cbn [bind].
  rewrite sum_line_row by wf_lines; cbn [bind].
  rewrite sum_line_row by wf_lines; cbn [bind].
  rewrite sum_line_row by wf_lines; cbn [bind].
  table_cells Hwf.
  cbn [put_row row replace_nth nth map lsum fold_right].
  f_equal; f_equal; lia.
Qed.

Lemma horizontal_move_unroll (fwd : bool) (t : table) :
  _horizontal_move t (h_dir fwd) =
  (s1 <- (let '(s, e, f) := params fwd in
          move_line (fun tb idx => get_cell tb (Z.of_nat 0) idx)
            (fun tb idx v => set_cell tb (Z.of_nat 0) idx v) s e f (t, false)) ;;
   s2 <- (let '(s, e, f) := params fwd in
          move_line (fun tb idx => get_cell tb (Z.of_nat 1) idx)
            (fun tb idx v => set_cell tb (Z.of_nat 1) idx v) s e f s1) ;;
   s3 <- (let '(s, e, f) := params fwd in
          move_line (fun tb idx => get_cell tb (Z.of_nat 2) idx)
            (fun tb idx v => set_cell tb (Z.of_nat 2) idx v) s e f s2) ;;
   s4 <- (let '(s, e, f) := params fwd in
          move_line (fun tb idx => get_cell tb (Z.of_nat 3) idx)
            (fun tb idx v => set_cell tb (Z.of_nat 3) idx v) s e f s3) ;;
   Ok s4).
Proof. destruct fwd; reflexivity. Qed.

Lemma vertical_sum_unroll (fwd : bool) (t : table) :
  _vertical_sum t (v_dir fwd) =
  (s1 <- (let '(s, e, f) := params fwd in
          sum_line (fun tb idx => get_cell tb idx (Z.of_nat 0))
            (fun tb idx v => set_cell tb idx (Z.of_nat 0) v) s e f (t, 0)) ;;
   s2 <- (let '(s, e, f) := params fwd in
          sum_line (fun tb idx => get_cell tb idx (Z.of_nat 1))
            (fun tb idx v => set_cell tb idx (Z.of_nat 1) v) s e f s1) ;;
   s3 <- (let '(s, e, f) := params fwd in
          sum_line (fun tb idx => get_cell tb idx (Z.of_nat 2))
            (fun tb idx v => set_cell tb idx (Z.of_nat 2) v) s e f s2) ;;
   s4 <- (let '(s, e, f) := params fwd in
          sum_line (fun tb idx => get_cell tb idx (Z.of_nat 3))
            (fun tb idx v => set_cell tb idx (Z.of_nat 3) v) s e f s3) ;;
   Ok s4).
Proof. destruct fwd; reflexivity. Qed.

Lemma vertical_move_unroll (fwd : bool) (t : table) :
  _vertical_move t (v_dir fwd) =
  (s1 <- (let '(s, e, f) := params fwd in
          move_line (fun tb idx => get_cell tb idx (Z.of_nat 0))
            (fun tb idx v => set_cell tb idx (Z.of_nat 0) v) s e f (t, false)) ;;
   s2 <- (let '(s, e, f) := params fwd in
          move_line (fun tb idx => get_cell tb idx (Z.of_nat 1))
            (fun tb idx v => set_cell tb idx (Z.of_nat 1) v) s e f s1) ;;
   s3 <- (let '(s, e, f) := params fwd in
          move_line (fun tb idx => get_cell tb idx (Z.of_nat 2))
            (fun tb idx v => set_cell tb idx (Z.of_nat 2) v) s e f s2) ;;
   s4 <- (let '(s, e, f) := params fwd in
          move_line (fun tb idx => get_cell tb idx (Z.of_nat 3))
            (fun tb idx v => set_cell tb idx (Z.of_nat 3) v) s e f s3) ;;
   Ok s4).
Proof. destruct fwd; reflexivity. Qed.

Ltac split_flags :=
  repeat match goal with
         | |- context [slid ?f ?l] => destruct (slid f l)
         end.

Lemma horizontal_move_lines (fwd : bool) (t : table) :
  wf_table t ->
  _horizontal_move t (h_dir fwd)
  = Ok (map (packed fwd) t, existsb (slid fwd) t).
Proof.
  intros Hwf. rewrite horizontal_move_unroll.
  rewrite move_line_row by wf_lines; cbn [bind].
  rewrite move_line_row by wf_lines; cbn [bind].
  rewrite move_line_row by wf_lines; cbn [bind].
  rewrite move_line_row by wf_lines; cbn [bind].
  table_cells Hwf.
  cbn [put_row row replace_nth nth map existsb].
  split_flags; reflexivity.
Qed.

Lemma vertical_sum_lines (fwd : bool) (t : table) :
  wf_table t ->
  _vertical_sum t (v_dir fwd)
  = Ok (transpose (map (merged fwd) (transpose t)),
        lsum (map (gain fwd) (transpose t))).
Proof.
  intros Hwf. rewrite vertical_sum_unroll.
  rewrite sum_line_col by wf_lines; cbn [bind].
  rewrite sum_line_col by wf_lines; cbn [bind].
  rewrite sum_line_col by wf_lines; cbn [bind].
  rewrite sum_line_col by wf_lines; cbn [bind].
  table_cells Hwf. line_shapes.
  cbn [lsum fold_right].
  f_equal; f_equal; lia.
Qed.

Lemma vertical_move_lines (fwd : bool) (t : table) :
  wf_table t ->
  _vertical_move t (v_dir fwd)
  = Ok (transpose (map (packed fwd) (transpose t)),
        existsb (slid fwd) (transpose t)).
Proof.
  intros Hwf. rewrite vertical_move_unroll.
  rewrite move_line_col by wf_lines; cbn [bind].
  rewrite move_line_col by wf_lines; cbn [bind].
  rewrite move_line_col by wf_lines; cbn [bind].
  rewrite move_line_col by wf_lines; cbn [bind].
  table_cells Hwf. line_shapes.
  cbn [existsb].
  split_flags; reflexivity.
Qed.

(** ** The lines of a push and [push_blocks] as maps over them *)

Lemma valid_direction_key (direction : string) :
  valid_direction direction ->
  exists vertical fwd, direction = key vertical fwd.
Proof.
  intros [<-|[<-|[<-|[<-|[]]]]].
  - now exists true, true.
  - now exists false, true.
  - now exists true, false.
  - now exists false, false.
Qed.

Lemma transpose_involutive (t : table) :
  wf_table t -> transpose (transpose t) = t.
Proof. intros Hwf; table_cells Hwf; reflexivity. Qed.

Lemma wf_transpose (t : table) : wf_table t -> wf_table (transpose t).
Proof. intros Hwf; table_cells Hwf; now apply wf_table_intro. Qed.

Lemma wf_map (f : list Z -> list Z) (t : table) :
  (forall l, List.length l = 4%nat -> List.length (f l) = 4%nat) ->
  wf_table t -> wf_table (map f t).
Proof.
  intros Hf [Hl Hr]; split.
  - now rewrite length_map.
  - apply Forall_map. eapply Forall_impl; [|exact Hr]. exact Hf.
Qed.

Lemma lines_involutive (vertical : bool) (t : table) :
  wf_table t -> lines vertical (lines vertical t) = t.
Proof. destruct vertical; simpl; auto using transpose_involutive. Qed.

Lemma wf_lines_of (vertical : bool) (t : table) :
  wf_table t -> wf_table (lines vertical t).
Proof. destruct vertical; simpl; auto using wf_transpose. Qed.

Lemma wf_on_lines (vertical : bool) (f : list Z -> list Z) (t : table) :
  (forall l, List.length l = 4%nat -> List.length (f l) = 4%nat) ->
  wf_table t -> wf_table (on_lines vertical f t).
Proof. intros; unfold on_lines; auto using wf_lines_of, wf_map. Qed.

Lemma lines_on_lines (vertical : bool) (f : list Z -> list Z) (t : table) :
  (forall l, List.length l = 4%nat -> List.length (f l) = 4%nat) ->
  wf_table t ->
  lines vertical (on_lines vertical f t) = map f (lines vertical t).
Proof.
  intros; unfold on_lines; auto using lines_involutive, wf_lines_of, wf_map.
Qed.

Lemma push_blocks_phases (vertical fwd : bool) (t : table) :
  push_blocks t (key vertical fwd)
  = ('(t1, score) <- sum_phase t vertical fwd ;;
     '(t2, moved) <- move_phase t1 vertical fwd ;;
     Ok (t2, (score, moved))).
Proof. destruct vertical, fwd; reflexivity. Qed.

Lemma sum_phase_lines (vertical fwd : bool) (t : table) :
  wf_table t ->
  sum_phase t vertical fwd
  = Ok (on_lines vertical (merged fwd) t,
        lsum (map (gain fwd) (lines vertical t))).
Proof.
  destruct vertical; simpl; intros.
  - now apply vertical_sum_lines.
  - now apply horizontal_sum_lines.
Qed.

Lemma move_phase_lines (vertical fwd : bool) (t : table) :
  wf_table t ->
  move_phase t vertical fwd
  = Ok (on_lines vertical (packed fwd) t,
        existsb (slid fwd) (lines vertical t)).
Proof.
  destruct vertical; simpl; intros.
  - now apply vertical_move_lines.
  - now apply horizontal_move_lines.
Qed.

Lemma push_blocks_lines (vertical fwd : bool) (t : table) :
  wf_table t ->
  push_blocks t (key vertical fwd)
  = Ok (on_lines vertical (fun l => packed fwd (merged fwd l)) t,
        (lsum (map (gain fwd) (lines vertical t)),
         existsb (slid fwd) (map (merged fwd) (lines vertical t)))).
Proof.
  intros Hwf. rewrite push_blocks_phases, sum_phase_lines by assumption.
  cbn [bind].
  rewrite move_phase_lines by auto using wf_on_lines, merged_length.
  rewrite lines_on_lines by auto using merged_length.
  unfold on_lines at 1.
  rewrite lines_on_lines by auto using merged_length.
  unfold on_lines. now rewrite map_map.
Qed.

(** ** Properties of the scan of one line *)

Ltac line4 H :=
  let a := fresh "a" in let b := fresh "b" in
  let c := fresh "c" in let d := fresh "d" in
  destruct (length4 _ H) as (a & b & c & d & ->); clear H.

Ltac forall4 :=
  repeat match goal with
         | H : Forall _ (_ :: _) |- _ => inversion H; subst; clear H
         | H : Forall _ [] |- _ => clear H
         end.

Lemma merged_lsum (fwd : bool) (l : list Z) :
  List.length l = 4%nat -> lsum (merged fwd l) = lsum l.
Proof.
  intros Hl; line4 Hl.
  destruct fwd; line_exec; cbn [lsum fold_right]; lia.
Qed.

Lemma packed_lsum (fwd : bool) (l : list Z) :
  List.length l = 4%nat -> lsum (packed fwd l) = lsum l.
Proof.
  intros Hl; line4 Hl.
  destruct fwd; line_exec; cbn [lsum fold_right]; lia.
Qed.

Lemma packed_pack (fwd : bool) (l : list Z) :
  List.length l = 4%nat -> packed fwd l = pack fwd l.
Proof.
  intros Hl; line4 Hl.
  destruct fwd; unfold pack, nonzeros, nonzero; cbn [filter]; line_exec;
    reflexivity.
Qed.

Lemma slid_spec (fwd : bool) (l : list Z) :
  List.length l = 4%nat -> (slid fwd l = true <-> packed fwd l <> l).
Proof.
  intros Hl; line4 Hl.
  destruct fwd; line_exec;
    (split;
     [ intros H E; first [discriminate H | inversion E; lia]
     | intros E; first [reflexivity | now elim E] ]).
Qed.

Lemma merged_forall (P : Z -> Prop) (fwd : bool) (l : list Z) :
  (forall x, P x -> x <> 0 -> P (x * 2)) -> P 0 ->
  List.length l = 4%nat -> Forall P l -> Forall P (merged fwd l).
Proof.
  intros H2 H0 Hl HP; line4 Hl. forall4.
  destruct fwd; line_exec; repeat constructor; auto.
Qed.

Lemma packed_forall (P : Z -> Prop) (fwd : bool) (l : list Z) :
  List.length l = 4%nat -> Forall P l -> Forall P (packed fwd l).
Proof.
  intros Hl HP; line4 Hl. forall4.
  destruct fwd; line_exec; repeat constructor; auto.
Qed.

Lemma gain_vanished (fwd : bool) (l : list Z) :
  List.length l = 4%nat ->
  gain fwd l = 2 * line_vanished l (merged fwd l).
Proof.
  intros Hl; line4 Hl.
  destruct fwd; unfold line_vanished, vanished, nonzero; line_exec;
    cbn [combine map fst snd lsum fold_right]; repeat line_step;
    cbn [negb andb]; lia.
Qed.

Lemma gain_nonneg (fwd : bool) (l : list Z) :
  List.length l = 4%nat -> Forall (fun x => 0 <= x) l -> 0 <= gain fwd l.
Proof.
  intros Hl HP; line4 Hl. forall4.
  destruct fwd; line_exec; lia.
Qed.

(** ** From lines to the table *)

Lemma line_on_lines (vertical : bool) (f : list Z -> list Z) (k : nat)
  (t : table) :
  (forall l, List.length l = 4%nat -> List.length (f l) = 4%nat) ->
  (k < 4)%nat -> wf_table t ->
  line vertical k (on_lines vertical f t) = f (line vertical k t).
Proof.
  intros Hf Hk Hwf. table_cells Hwf.
  destruct vertical; unfold on_lines, lines, line.
  - cbn [transpose map col nth].
    repeat match goal with
           | |- context [f [?a; ?b; ?c; ?d]] =>
               let E := fresh "E" in
               destruct (length4 _ (Hf [a; b; c; d] eq_refl))
                 as (? & ? & ? & ? & E);
               rewrite ?E
           end.
    destruct k as [|[|[|[|]]]]; try lia; cbn [map nth]; congruence.
  - destruct k as [|[|[|[|]]]]; try lia; reflexivity.
Qed.

Lemma grid_sum_transpose (t : table) :
  wf_table t -> grid_sum (transpose t) = grid_sum t.
Proof.
  intros Hwf; table_cells Hwf.
  unfold grid_sum; cbn [transpose col map nth lsum fold_right]; lia.
Qed.

Lemma grid_sum_map (f : list Z -> list Z) (t : table) :
  (forall l, List.length l = 4%nat -> lsum (f l) = lsum l) ->
  wf_table t -> grid_sum (map f t) = grid_sum t.
Proof.
  intros Hf [_ Hr]; unfold grid_sum.
  rewrite map_map. f_equal. apply map_ext_in.
  intros l Hl. rewrite Forall_forall in Hr. auto.
Qed.

Lemma grid_sum_on_lines (vertical : bool) (f : list Z -> list Z) (t : table) :
  (forall l, List.length l = 4%nat -> List.length (f l) = 4%nat) ->
  (forall l, List.length l = 4%nat -> lsum (f l) = lsum l) ->
  wf_table t -> grid_sum (on_lines vertical f t) = grid_sum t.
Proof.
  intros Hlen Hsum Hwf; unfold on_lines; destruct vertical; cbn [lines].
  - rewrite grid_sum_transpose by auto using wf_map, wf_transpose.
    rewrite grid_sum_map by auto using wf_transpose.
    now apply grid_sum_transpose.
  - now apply grid_sum_map.
Qed.

Lemma forall_transpose (P : Z -> Prop) (t : table) :
  wf_table t -> Forall (Forall P) t -> Forall (Forall P) (transpose t).
Proof.
  intros Hwf HP; table_cells Hwf. forall4.
  cbn [transpose col map nth]. repeat constructor; assumption.
Qed.

Lemma forall_map (P : Z -> Prop) (f : list Z -> list Z) (t : table) :
  (forall l, List.length l = 4%nat -> Forall P l -> Forall P (f l)) ->
  wf_table t -> Forall (Forall P) t -> Forall (Forall P) (map f t).
Proof.
  intros Hf [_ Hr] HP. apply Forall_map.
  rewrite Forall_forall in *. auto.
Qed.

Lemma forall_on_lines (P : Z -> Prop) (vertical : bool)
  (f : list Z -> list Z) (t : table) :
  (forall l, List.length l = 4%nat -> List.length (f l) = 4%nat) ->
  (forall l, List.length l = 4%nat -> Forall P l -> Forall P (f l)) ->
  wf_table t -> Forall (Forall P) t -> Forall (Forall P) (on_lines vertical f t).
Proof.
  intros Hlen Hf Hwf HP; unfold on_lines; destruct vertical; cbn [lines].
  - apply forall_transpose; [auto using wf_map, wf_transpose|].
    apply forall_map; auto using wf_transpose, forall_transpose.
  - now apply forall_map.
Qed.

Lemma packed_merged_length (fwd : bool) (l : list Z) :
  List.length l = 4%nat -> List.length (packed fwd (merged fwd l)) = 4%nat.
Proof. auto using packed_length, merged_length. Qed.

(** ** The value of the grid (claim C10) *)

(** C10.  For every 4x4 grid and every direction in "W", "A", "S", "D",
    [push_blocks] returns and leaves the sum of the sixteen cells
    unchanged. *)
Theorem push_blocks_preserves_grid_sum (t : table) (direction : string)
  (Hwf : wf_table t) (Hdir : valid_direction direction) :
  exists t' score changed,
    push_blocks t direction = Ok (t', (score, changed))
    /\ grid_sum t' = grid_sum t.
Proof.
  destruct (valid_direction_key _ Hdir) as (vertical & fwd & ->).
  rewrite push_blocks_lines by assumption.
  do 3 eexists; split; [reflexivity|].
  apply grid_sum_on_lines; auto using packed_merged_length.
  intros l Hl.
  rewrite packed_lsum by auto using merged_length.
  now apply merged_lsum.
Qed.

Lemma push_blocks_preserves_grid_sum_witness :
  exists t' score changed,
    push_blocks sample_table "S" = Ok (t', (score, changed))
    /\ grid_sum t' = grid_sum sample_table.
Proof.
  apply (push_blocks_preserves_grid_sum sample_table "S").
  - apply wf_tableb_sound; reflexivity.
  - unfold valid_direction; simpl; tauto.
Defined.

(** ** Empty cells, [insert_block] and [can_move] *)

Lemma get_cell_ok (t : table) (r c : Z) :
  wf_table t -> In r [0; 1; 2; 3] -> In c [0; 1; 2; 3] ->
  get_cell t r c = Ok (cellz t r c).
Proof.
  intros Hwf Hr Hc; table_cells Hwf.
  simpl in Hr, Hc.
  destruct Hr as [<-|[<-|[<-|[<-|[]]]]];
    destruct Hc as [<-|[<-|[<-|[<-|[]]]]]; reflexivity.
Qed.

Lemma for_each_append {X A : Type} (xs : list X)
  (body : X -> list A -> result (list A)) (g : X -> list A) :
  (forall x, In x xs -> forall acc, body x acc = Ok (acc ++ g x)) ->
  forall acc, for_each xs body acc = Ok (acc ++ flat_map g xs).
Proof.
  induction xs as [|x xs IH]; intros Hb acc; simpl.
  - now rewrite app_nil_r.
  - rewrite Hb by (now left). simpl.
    rewrite IH by (intros; apply Hb; now right).
    now rewrite app_assoc.
Qed.

Lemma get_empty_indexes_ok (t : table) :
  wf_table t -> _get_empty_indexes t = Ok (empty_cells t).
Proof.
  intros Hwf; unfold _get_empty_indexes, empty_cells.
  change (range 0 4 1) with [0; 1; 2; 3].
  rewrite for_each_append
    with (g := fun r => flat_map
                 (fun c => if cellz t r c =? 0 then [(r, c)] else [])
                 [0; 1; 2; 3]);
    [reflexivity|].
  intros r Hr acc. apply for_each_append.
  intros c Hc acc'. rewrite get_cell_ok by assumption. simpl.
  destruct (cellz t r c =? 0); [reflexivity | now rewrite app_nil_r].
Qed.

Lemma in_empty_cells (t : table) (r c : Z) :
  In (r, c) (empty_cells t) <->
  In r [0; 1; 2; 3] /\ In c [0; 1; 2; 3] /\ cellz t r c = 0.
Proof.
  unfold empty_cells. rewrite in_flat_map. split.
  - intros (r' & Hr' & H). apply in_flat_map in H as (c' & Hc' & H).
    destruct (Z.eqb_spec (cellz t r' c') 0) as [E|E]; [|contradiction].
    destruct H as [H|[]]. inversion H; subst. auto.
  - intros (Hr & Hc & E). exists r; split; [assumption|].
    apply in_flat_map. exists c; split; [assumption|].
    rewrite E. now left.
Qed.

Lemma flat_map_nil_existsb {X Y : Type} (p : X -> bool) (f : X -> list Y)
  (xs : list X) :
  (forall x, f x = [] <-> p x = false) ->
  (flat_map f xs = [] <-> existsb p xs = false).
Proof.
  intros Hf; induction xs as [|x xs IH]; simpl; [tauto|].
  rewrite orb_false_iff, <- IH, <- Hf. split.
  - intros H. now apply app_eq_nil in H.
  - intros [-> ->]. reflexivity.
Qed.

Lemma empty_cells_nil (t : table) :
  empty_cells t = [] <-> has_empty t = false.
Proof.
  apply flat_map_nil_existsb. intros r.
  apply flat_map_nil_existsb. intros c.
  destruct (cellz t r c =? 0); split; congruence.
Qed.

Lemma choice_in {A : Type} (draw : nat) (seq : list A) :
  seq <> [] -> exists x, choice draw seq = Ok x /\ In x seq.
Proof.
  intros Hne; unfold choice.
  destruct (nth_error seq (draw mod List.length seq)) as [x|] eqn:E.
  - exists x; split; [reflexivity|]. eapply nth_error_In; eassumption.
  - apply nth_error_None in E.
    assert (List.length seq <> 0%nat) by (destruct seq; simpl; congruence).
    pose proof (Nat.mod_upper_bound draw (List.length seq)). lia.
Qed.

Lemma in_range4 (r : Z) :
  In r [0; 1; 2; 3] <-> exists n : nat, (n < 4)%nat /\ r = Z.of_nat n.
Proof.
  split.
  - simpl; intros [<-|[<-|[<-|[<-|[]]]]];
      [exists 0%nat|exists 1%nat|exists 2%nat|exists 3%nat]; split;
      (lia || reflexivity).
  - intros (n & Hn & ->).
    destruct n as [|[|[|[|n]]]]; try lia; simpl; tauto.
Qed.

Lemma in_range3 (r : Z) :
  In r [0; 1; 2] <-> exists n : nat, (n < 3)%nat /\ r = Z.of_nat n.
Proof.
  split.
  - simpl; intros [<-|[<-|[<-|[]]]];
      [exists 0%nat|exists 1%nat|exists 2%nat]; split; (lia || reflexivity).
  - intros (n & Hn & ->).
    destruct n as [|[|[|n]]]; try lia; simpl; tauto.
Qed.

Lemma cellz_of_nat (t : table) (r c : nat) :
  cellz t (Z.of_nat r) (Z.of_nat c) = cell t r c.
Proof. unfold cellz. now rewrite !Nat2Z.id. Qed.

Lemma set_cell_ok (t : table) (r c v : Z) :
  wf_table t -> In r [0; 1; 2; 3] -> In c [0; 1; 2; 3] ->
  exists t',
    set_cell t r c v = Ok t'
    /\ wf_table t'
    /\ cellz t' r c = v
    /\ (forall r' c' : nat,
          (r', c') <> (Z.to_nat r, Z.to_nat c) -> cell t' r' c' = cell t r' c')
    /\ (forall P : Z -> Prop,
          P v -> Forall (Forall P) t -> Forall (Forall P) t').
Proof.
  intros Hwf Hr Hc; table_cells Hwf.
  simpl in Hr, Hc.
  destruct Hr as [<-|[<-|[<-|[<-|[]]]]];
    destruct Hc as [<-|[<-|[<-|[<-|[]]]]];
    (eexists; split; [reflexivity|];
     split; [now apply wf_table_intro|];
     split; [reflexivity|];
     split;
     [ intros r' c' Hne;
       destruct r' as [|[|[|[|r']]]]; destruct c' as [|[|[|[|c']]]];
       try reflexivity; elim Hne; reflexivity
     | intros P Hv HP; forall4; repeat constructor; assumption ]).
Qed.

Lemma insert_block_cases (draw_cell draw_value : nat) (t : table) :
  wf_table t ->
  (empty_cells t = [] /\ insert_block draw_cell draw_value t = Ok t)
  \/ (exists r c v,
        In (r, c) (empty_cells t) /\ (v = 2 \/ v = 4)
        /\ insert_block draw_cell draw_value t = set_cell t r c v).
Proof.
  intros Hwf; unfold insert_block.
  rewrite get_empty_indexes_ok by assumption. cbn [bind].
  destruct (empty_cells t) as [|p ps] eqn:E; [now left|right].
  destruct (choice_in draw_cell (p :: ps)) as ([r c] & -> & Hin);
    [discriminate|].
  destruct (choice_in draw_value [2; 4]) as (v & -> & Hv); [discriminate|].
  exists r, c, v; cbn [bind]. repeat split; try assumption.
  simpl in Hv. intuition.
Qed.

(** ** The grid invariant (claim C7) *)

Lemma valid_cell_double (x : Z) : valid_cell x -> x <> 0 -> valid_cell (x * 2).
Proof.
  intros [->|(k & Hk & ->)] Hx; [contradiction|].
  right; exists (S k); split; [lia|].
  rewrite Nat2Z.inj_succ, Z.pow_succ_r by lia. lia.
Qed.

Lemma valid_cell_zero : valid_cell 0.
Proof. now left. Qed.

Lemma valid_cellb_sound (x : Z) : valid_cellb x = true -> valid_cell x.
Proof.
  unfold valid_cellb; intros H.
  apply orb_true_iff in H as [H|H].
  - left; now apply Z.eqb_eq.
  - apply andb_prop in H as [H2 Hp].
    apply Z.leb_le in H2; apply Z.eqb_eq in Hp.
    right; exists (Z.to_nat (Z.log2 x)).
    assert (0 < Z.log2 x) by (apply Z.log2_pos; lia).
    split; [lia|]. rewrite Z2Nat.id by lia. exact Hp.
Qed.

Lemma grid_invariantb_sound (t : table) :
  grid_invariantb t = true -> grid_invariant t.
Proof.
  unfold grid_invariantb, grid_invariant; intros H.
  apply andb_prop in H as [Hw Hv]; split; [now apply wf_tableb_sound|].
  rewrite forallb_forall in Hv.
  apply Forall_forall; intros r Hr. specialize (Hv r Hr).
  rewrite forallb_forall in Hv.
  apply Forall_forall; intros x Hx. now apply valid_cellb_sound, Hv.
Qed.

(** C7.  The grid invariant (four rows of four cells, each cell 0 or a
    power of two that is at least 2) holds of [new_table], and a grid that
    satisfies it still does after [push_blocks] in any of the four
    directions and after [insert_block], whatever the random draws; both
    calls return. *)
Theorem grid_invariant_preserved (t : table) (Hinv : grid_invariant t) :
  grid_invariant new_table
  /\ (forall direction, valid_direction direction ->
        exists t' outcome,
          push_blocks t direction = Ok (t', outcome) /\ grid_invariant t')
  /\ (forall draw_cell draw_value,
        exists t',
          insert_block draw_cell draw_value t = Ok t' /\ grid_invariant t').
Proof.
  destruct Hinv as [Hwf Hv]. split; [|split].
  - apply grid_invariantb_sound; reflexivity.
  - intros direction Hdir.
    destruct (valid_direction_key _ Hdir) as (vertical & fwd & ->).
    rewrite push_blocks_lines by assumption.
    do 2 eexists; split; [reflexivity|]. split.
    + apply wf_on_lines; auto using packed_merged_length.
    + apply forall_on_lines; auto using packed_merged_length.
      intros l Hl HP. apply packed_forall; [auto using merged_length|].
      apply merged_forall;
        auto using valid_cell_double, valid_cell_zero.
  - intros draw_cell draw_value.
    destruct (insert_block_cases draw_cell draw_value t Hwf)
      as [[_ ->]|(r & c & v & Hin & Hval & ->)].
    + exists t; split; [reflexivity|]. now split.
    + apply in_empty_cells in Hin as (Hr & Hc & _).
      destruct (set_cell_ok t r c v Hwf Hr Hc)
        as (t' & -> & Hwf' & _ & _ & HP).
      exists t'; split; [reflexivity|]. split; [assumption|].
      apply HP; [|assumption].
      destruct Hval as [->| ->]; right;
        [exists 1%nat|exists 2%nat]; split; (lia || reflexivity).
Qed.

Lemma grid_invariant_preserved_witness :
  grid_invariant new_table
  /\ (forall direction, valid_direction direction ->
        exists t' outcome,
          push_blocks sample_table direction = Ok (t', outcome)
          /\ grid_invariant t')
  /\ (forall draw_cell draw_value,
        exists t',
          insert_block draw_cell draw_value sample_table = Ok t'
          /\ grid_invariant t').
Proof.
  apply (grid_invariant_preserved sample_table).
  apply grid_invariantb_sound; reflexivity.
Defined.

(** ** [insert_block] on a full grid and on a grid with one empty cell
    (claim C8) *)

(** C8.  On a grid with no empty cell [insert_block] returns and leaves
    the grid as it is; on a grid whose only empty cell is ([r], [c]) it
    returns a grid that holds 2 or 4 at ([r], [c]) and is unchanged
    everywhere else.  Both hold for every pair of random draws. *)
Theorem insert_block_full_or_single (t : table) (draw_cell draw_value : nat)
  (Hwf : wf_table t) :
  ((forall r c, (r < 4)%nat -> (c < 4)%nat -> cell t r c <> 0) ->
   insert_block draw_cell draw_value t = Ok t)
  /\ (forall r c,
        (r < 4)%nat -> (c < 4)%nat ->
        (forall r' c', (r' < 4)%nat -> (c' < 4)%nat ->
                       (cell t r' c' = 0 <-> (r', c') = (r, c))) ->
        exists t',
          insert_block draw_cell draw_value t = Ok t'
          /\ wf_table t'
          /\ (cell t' r c = 2 \/ cell t' r c = 4)
          /\ forall r' c', (r', c') <> (r, c) -> cell t' r' c' = cell t r' c').
Proof.
  split.
  - intros Hfull.
    destruct (insert_block_cases draw_cell draw_value t Hwf)
      as [[_ E]|(r & c & v & Hin & _)]; [exact E|].
    apply in_empty_cells in Hin as (Hr & Hc & E).
    apply in_range4 in Hr as (n & Hn & ->).
    apply in_range4 in Hc as (m & Hm & ->).
    rewrite cellz_of_nat in E. now elim (Hfull n m).
  - intros r c Hr Hc Honly.
    destruct (insert_block_cases draw_cell draw_value t Hwf)
      as [[E _]|(r0 & c0 & v & Hin & Hval & ->)].
    + assert (Hin : In (Z.of_nat r, Z.of_nat c) (empty_cells t)).
      { apply in_empty_cells. repeat split.
        - apply in_range4; eauto.
        - apply in_range4; eauto.
        - rewrite cellz_of_nat. now apply Honly. }
      rewrite E in Hin. contradiction.
    + apply in_empty_cells in Hin as (Hr0 & Hc0 & E).
      destruct (set_cell_ok t r0 c0 v Hwf Hr0 Hc0)
        as (t' & -> & Hwf' & Hv & Hother & _).
      apply in_range4 in Hr0 as (n & Hn & ->).
      apply in_range4 in Hc0 as (m & Hm & ->).
      rewrite cellz_of_nat in E, Hv. rewrite !Nat2Z.id in Hother.
      apply Honly in E; [|assumption..]. inversion E; subst n m.
      exists t'. split; [reflexivity|]. split; [assumption|].
      split; [rewrite Hv; exact Hval | exact Hother].
Qed.

Lemma insert_block_full_or_single_witness :
  insert_block 5 7 full_table = Ok full_table
  /\ exists t',
       insert_block 5 7 one_gap_table = Ok t'
       /\ wf_table t'
       /\ (cell t' 1 2 = 2 \/ cell t' 1 2 = 4)
       /\ forall r' c',
            (r', c') <> (1%nat, 2%nat) ->
            cell t' r' c' = cell one_gap_table r' c'.
Proof.
  split.
  - apply (insert_block_full_or_single full_table 5 7).
    + apply wf_tableb_sound; reflexivity.
    + intros r c Hr Hc.
      destruct r as [|[|[|[|r]]]]; try lia;
        destruct c as [|[|[|[|c]]]]; try lia; discriminate.
  - apply (insert_block_full_or_single one_gap_table 5 7).
    + apply wf_tableb_sound; reflexivity.
    + lia.
    + lia.
    + intros r c Hr Hc.
      destruct r as [|[|[|[|r]]]]; try lia;
        destruct c as [|[|[|[|c]]]]; try lia;
        (split; [try discriminate | try (intros E; discriminate E)]);
        reflexivity.
Defined.

(** ** [can_move] (claim C9) *)

Lemma for_return_exists {X : Type} (xs : list X)
  (body : X -> result (option bool)) (p : X -> bool) :
  (forall x, In x xs -> body x = Ok (if p x then Some true else None)) ->
  for_return xs body = Ok (if existsb p xs then Some true else None).
Proof.
  induction xs as [|x xs IH]; intros Hb; simpl; [reflexivity|].
  rewrite Hb by (now left). simpl.
  destruct (p x); simpl; [reflexivity|].
  apply IH. intros; apply Hb; now right.
Qed.

Lemma in_succ_range (c : Z) : In c [0; 1; 2] -> In (c + 1) [0; 1; 2; 3].
Proof. simpl; intros [<-|[<-|[<-|[]]]]; simpl; tauto. Qed.

Lemma in_range3_4 (c : Z) : In c [0; 1; 2] -> In c [0; 1; 2; 3].
Proof. simpl; tauto. Qed.

Lemma can_move_horizontally_ok (t : table) :
  wf_table t -> can_move_horizontally t = Ok (has_equal_in_row t).
Proof.
  intros Hwf; unfold can_move_horizontally, has_equal_in_row.
  change (range 0 4 1) with [0; 1; 2; 3].
  change (range 0 3 1) with [0; 1; 2].
  rewrite for_return_exists
    with (p := fun r => existsb
                 (fun c => cellz t r c =? cellz t r (c + 1)) [0; 1; 2]).
  - cbn [bind].
    match goal with |- context [existsb ?p ?l] => now destruct (existsb p l) end.
  - intros r Hr. apply for_return_exists. intros c Hc.
    rewrite !get_cell_ok by auto using in_succ_range, in_range3_4.
    simpl. now destruct (_ =? _).
Qed.

Lemma can_move_vertically_ok (t : table) :
  wf_table t -> can_move_vertically t = Ok (has_equal_in_col t).
Proof.
  intros Hwf; unfold can_move_vertically, has_equal_in_col.
  change (range 0 4 1) with [0; 1; 2; 3].
  change (range 0 3 1) with [0; 1; 2].
  rewrite for_return_exists
    with (p := fun c => existsb
                 (fun r => cellz t r c =? cellz t (r + 1) c) [0; 1; 2]).
  - cbn [bind].
    match goal with |- context [existsb ?p ?l] => now destruct (existsb p l) end.
  - intros c Hc. apply for_return_exists. intros r Hr.
    rewrite !get_cell_ok by auto using in_succ_range, in_range3_4.
    simpl. now destruct (_ =? _).
Qed.

Lemma can_move_ok (t : table) :
  wf_table t ->
  can_move t = Ok (has_empty t || has_equal_in_row t || has_equal_in_col t).
Proof.
  intros Hwf; unfold can_move.
  rewrite get_empty_indexes_ok by assumption. cbn [bind].
  destruct (empty_cells t) as [|p ps] eqn:E.
  - apply empty_cells_nil in E. rewrite E.
    rewrite can_move_horizontally_ok by assumption. cbn [bind orb].
    destruct (has_equal_in_row t); [reflexivity|].
    now apply can_move_vertically_ok.
  - destruct (has_empty t) eqn:Eh; [reflexivity|].
    apply empty_cells_nil in Eh. congruence.
Qed.

Lemma existsb_in4 (p : Z -> bool) :
  existsb p [0; 1; 2; 3] = true <->
  exists n : nat, (n < 4)%nat /\ p (Z.of_nat n) = true.
Proof.
  rewrite existsb_exists. split.
  - intros (x & Hx & Hp). apply in_range4 in Hx as (n & Hn & ->). eauto.
  - intros (n & Hn & Hp). exists (Z.of_nat n). split; [|assumption].
    apply in_range4; eauto.
Qed.

Lemma existsb_in3 (p : Z -> bool) :
  existsb p [0; 1; 2] = true <->
  exists n : nat, (n < 3)%nat /\ p (Z.of_nat n) = true.
Proof.
  rewrite existsb_exists. split.
  - intros (x & Hx & Hp). apply in_range3 in Hx as (n & Hn & ->). eauto.
  - intros (n & Hn & Hp). exists (Z.of_nat n). split; [|assumption].
    apply in_range3; eauto.
Qed.

Lemma cellz_succ_col (t : table) (r c : nat) :
  cellz t (Z.of_nat r) (Z.of_nat c + 1) = cell t r (S c).
Proof.
  unfold cellz. rewrite Nat2Z.id. f_equal. lia.
Qed.

Lemma cellz_succ_row (t : table) (r c : nat) :
  cellz t (Z.of_nat r + 1) (Z.of_nat c) = cell t (S r) c.
Proof.
  unfold cellz, cell. rewrite Nat2Z.id.
  replace (Z.to_nat (Z.of_nat r + 1)) with (S r) by lia. reflexivity.
Qed.

Lemma has_empty_spec (t : table) :
  has_empty t = true <->
  exists r c, (r < 4)%nat /\ (c < 4)%nat /\ cell t r c = 0.
Proof.
  unfold has_empty. rewrite existsb_in4. split.
  - intros (r & Hr & H). apply existsb_in4 in H as (c & Hc & H).
    rewrite cellz_of_nat in H. apply Z.eqb_eq in H. eauto.
  - intros (r & c & Hr & Hc & H). exists r; split; [assumption|].
    apply existsb_in4. exists c; split; [assumption|].
    rewrite cellz_of_nat. now apply Z.eqb_eq.
Qed.

Lemma has_equal_in_row_spec (t : table) :
  has_equal_in_row t = true <->
  exists r c, (r < 4)%nat /\ (c < 3)%nat /\ cell t r c = cell t r (S c).
Proof.
  unfold has_equal_in_row. rewrite existsb_in4. split.
  - intros (r & Hr & H). apply existsb_in3 in H as (c & Hc & H).
    rewrite cellz_of_nat, cellz_succ_col in H. apply Z.eqb_eq in H. eauto.
  - intros (r & c & Hr & Hc & H). exists r; split; [assumption|].
    apply existsb_in3. exists c; split; [assumption|].
    rewrite cellz_of_nat, cellz_succ_col. now apply Z.eqb_eq.
Qed.

Lemma has_equal_in_col_spec (t : table) :
  has_equal_in_col t = true <->
  exists r c, (r < 3)%nat /\ (c < 4)%nat /\ cell t r c = cell t (S r) c.
Proof.
  unfold has_equal_in_col. rewrite existsb_in4. split.
  - intros (c & Hc & H). apply existsb_in3 in H as (r & Hr & H).
    rewrite cellz_of_nat, cellz_succ_row in H. apply Z.eqb_eq in H. eauto.
  - intros (r & c & Hr & Hc & H). exists c; split; [assumption|].
    apply existsb_in3. exists r; split; [assumption|].
    rewrite cellz_of_nat, cellz_succ_row. now apply Z.eqb_eq.
Qed.

(** C9.  On a 4x4 grid [can_move] returns, and it returns true exactly
    when some cell is 0, or two cells next to each other in a row are
    equal, or two cells next to each other in a column are equal; on the
    checkerboard of 2s and 4s it returns false. *)
Theorem can_move_spec (t : table) (Hwf : wf_table t) :
  (exists b,
     can_move t = Ok b
     /\ (b = true <->
         (exists r c, (r < 4)%nat /\ (c < 4)%nat /\ cell t r c = 0)
         \/ (exists r c, (r < 4)%nat /\ (c < 3)%nat
                         /\ cell t r c = cell t r (S c))
         \/ (exists r c, (r < 3)%nat /\ (c < 4)%nat
                         /\ cell t r c = cell t (S r) c)))
  /\ can_move checkerboard = Ok false.
Proof.
  split; [|reflexivity].
  eexists; split; [now apply can_move_ok|].
  rewrite !orb_true_iff, has_empty_spec, has_equal_in_row_spec,
    has_equal_in_col_spec.
  tauto.
Qed.

Lemma can_move_spec_witness :
  (exists b,
     can_move sample_table = Ok b
     /\ (b = true <->
         (exists r c, (r < 4)%nat /\ (c < 4)%nat /\ cell sample_table r c = 0)
         \/ (exists r c, (r < 4)%nat /\ (c < 3)%nat
                         /\ cell sample_table r c = cell sample_table r (S c))
         \/ (exists r c, (r < 3)%nat /\ (c < 4)%nat
                         /\ cell sample_table r c = cell sample_table (S r) c)))
  /\ can_move checkerboard = Ok false.
Proof.
  apply (can_move_spec sample_table).
  apply wf_tableb_sound; reflexivity.
Defined.

(** ** Compaction (claim C6) *)

Lemma filter_idempotent {A : Type} (f : A -> bool) (l : list A) :
  filter f (filter f l) = filter f l.
Proof.
  induction l as [|x l IH]; simpl; [reflexivity|].
  destruct (f x) eqn:E; simpl; [rewrite E|]; congruence.
Qed.

Lemma nonzeros_repeat_zero (n : nat) : nonzeros (repeat 0 n) = [].
Proof. induction n; simpl; auto. Qed.

Lemma nonzeros_pack (fwd : bool) (l : list Z) :
  nonzeros (pack fwd l) = nonzeros l.
Proof.
  unfold pack, nonzeros at 1 3; destruct fwd; rewrite filter_app.
  - fold (nonzeros (repeat 0 (List.length l - List.length (nonzeros l)))).
    rewrite nonzeros_repeat_zero, app_nil_r. apply filter_idempotent.
  - fold (nonzeros (repeat 0 (List.length l - List.length (nonzeros l)))).
    rewrite nonzeros_repeat_zero. apply filter_idempotent.
Qed.

Lemma line_row (k : nat) (t : table) : line false k t = row k t.
Proof. reflexivity. Qed.

Lemma line_col (k : nat) (t : table) : line true k t = col k t.
Proof. reflexivity. Qed.

Lemma move_phase_packs (vertical fwd : bool) (k : nat) (t : table) :
  wf_table t -> (k < 4)%nat ->
  exists t' moved,
    move_phase t vertical fwd = Ok (t', moved)
    /\ line vertical k t' = pack fwd (line vertical k t)
    /\ nonzeros (line vertical k t') = nonzeros (line vertical k t).
Proof.
  intros Hwf Hk. rewrite move_phase_lines by assumption.
  do 2 eexists; split; [reflexivity|].
  rewrite line_on_lines by auto using packed_length.
  assert (Hl : List.length (line vertical k t) = 4%nat)
    by (destruct vertical; auto using row_length, col_length).
  rewrite packed_pack by assumption.
  split; [reflexivity | apply nonzeros_pack].
Qed.

(** C6.  On a 4x4 grid the compaction phase returns, and every line (row
    [k] for [_horizontal_move], column [k] for [_vertical_move]) becomes
    [pack fwd] of the line before: its non-zero values, in their order,
    come first from index 0 for "a" (left) and "w" (up), last up to index
    3 for "d" (right) and "s" (down), and zeros fill the other cells; so
    the non-zero values of the line are the same, in the same order. *)
Theorem compaction_packs_lines (t : table) (fwd : bool) (k : nat)
  (Hwf : wf_table t) (Hk : (k < 4)%nat) :
  (exists t' moved,
     _horizontal_move t (h_dir fwd) = Ok (t', moved)
     /\ row k t' = pack fwd (row k t)
     /\ nonzeros (row k t') = nonzeros (row k t))
  /\ (exists t' moved,
        _vertical_move t (v_dir fwd) = Ok (t', moved)
        /\ col k t' = pack fwd (col k t)
        /\ nonzeros (col k t') = nonzeros (col k t)).
Proof.
  split.
  - exact (move_phase_packs false fwd k t Hwf Hk).
  - exact (move_phase_packs true fwd k t Hwf Hk).
Qed.

Lemma compaction_packs_lines_witness :
  (exists t' moved,
     _horizontal_move sample_table "d" = Ok (t', moved)
     /\ row 1 t' = [0; 0; 4; 4]
     /\ nonzeros (row 1 t') = [4; 4])
  /\ (exists t' moved,
        _vertical_move sample_table "s" = Ok (t', moved)
        /\ col 1 t' = [0; 2; 4; 4]
        /\ nonzeros (col 1 t') = [2; 4; 4]).
Proof.
  apply (compaction_packs_lines sample_table false 1).
  - apply wf_tableb_sound; reflexivity.
  - lia.
Defined.

(** ** The flag returned by [push_blocks] (claims C1 and C4) *)

Lemma is_vertical_key (vertical fwd : bool) :
  is_vertical (key vertical fwd) = vertical.
Proof. destruct vertical, fwd; reflexivity. Qed.

Lemma is_forward_key (vertical fwd : bool) :
  is_forward (key vertical fwd) = fwd.
Proof. destruct vertical, fwd; reflexivity. Qed.

Lemma slid_false (fwd : bool) (l : list Z) :
  List.length l = 4%nat -> slid fwd l = false -> packed fwd l = l.
Proof.
  intros Hl Hs.
  destruct (list_eq_dec Z.eq_dec (packed fwd l) l) as [E|E]; [exact E|].
  apply slid_spec in E; [congruence | assumption].
Qed.

Lemma moved_iff_lines_changed (fwd : bool) (ls : table) :
  Forall (fun l => List.length l = 4%nat) ls ->
  (existsb (slid fwd) ls = true <-> map (packed fwd) ls <> ls).
Proof.
  induction 1 as [|l ls Hl _ IH]; simpl.
  - split; [discriminate | intros E; now elim E].
  - destruct (slid fwd l) eqn:Es; simpl.
    + split; [intros _ E | reflexivity].
      inversion E as [[E1 E2]]. now apply (slid_spec fwd l Hl) in E1.
    + rewrite (slid_false fwd l Hl Es), IH. split.
      * intros Hne E. inversion E. contradiction.
      * intros Hne E. apply Hne. now rewrite E.
Qed.

Lemma lines_injective (vertical : bool) (t u : table) :
  wf_table t -> wf_table u -> lines vertical t = lines vertical u -> t = u.
Proof.
  intros Ht Hu E.
  rewrite <- (lines_involutive vertical t Ht), E.
  now apply lines_involutive.
Qed.

Lemma moved_iff_changed (vertical fwd : bool) (t : table) :
  wf_table t ->
  (existsb (slid fwd) (lines vertical t) = true
   <-> on_lines vertical (packed fwd) t <> t).
Proof.
  intros Hwf.
  pose proof (wf_lines_of vertical t Hwf) as Hl.
  rewrite moved_iff_lines_changed by apply Hl.
  unfold on_lines. split; intros Hne E; apply Hne.
  - apply (f_equal (lines vertical)) in E.
    now rewrite lines_involutive in E by auto using wf_map, packed_length.
  - rewrite E. now apply lines_involutive.
Qed.

(** C1, as the code has it.  For every 4x4 grid and every direction in
    "W", "A", "S", "D", [push_blocks] runs the sum phase, then the move
    phase on the grid the sum phase leaves, and the flag it returns is the
    result of the move phase alone: it is true if and only if the move
    phase changed the grid (a tile slid).  A merge does not set it. *)
Theorem push_blocks_changed_iff_slid (t : table) (direction : string)
  (Hwf : wf_table t) (Hdir : valid_direction direction) :
  exists t1 score t2 changed,
    sum_phase t (is_vertical direction) (is_forward direction)
    = Ok (t1, score)
    /\ move_phase t1 (is_vertical direction) (is_forward direction)
       = Ok (t2, changed)
    /\ push_blocks t direction = Ok (t2, (score, changed))
    /\ (changed = true <-> t2 <> t1).
Proof.
  destruct (valid_direction_key _ Hdir) as (vertical & fwd & ->).
  rewrite is_vertical_key, is_forward_key, push_blocks_phases.
  assert (Hwf1 : wf_table (on_lines vertical (merged fwd) t))
    by auto using wf_on_lines, merged_length.
  exists (on_lines vertical (merged fwd) t),
    (lsum (map (gain fwd) (lines vertical t))),
    (on_lines vertical (packed fwd) (on_lines vertical (merged fwd) t)),
    (existsb (slid fwd) (lines vertical (on_lines vertical (merged fwd) t))).
  rewrite sum_phase_lines by assumption. cbn [bind].
  rewrite move_phase_lines by assumption.
  repeat split; try reflexivity; now apply moved_iff_changed.
Qed.

Lemma push_blocks_changed_iff_slid_witness :
  exists t1 score t2 changed,
    sum_phase sample_table true false = Ok (t1, score)
    /\ move_phase t1 true false = Ok (t2, changed)
    /\ push_blocks sample_table "S" = Ok (t2, (score, changed))
    /\ (changed = true <-> t2 <> t1).
Proof.
  apply (push_blocks_changed_iff_slid sample_table "S").
  - apply wf_tableb_sound; reflexivity.
  - unfold valid_direction; simpl; tauto.
Defined.

(** C1 as stated fails: pushing the row [2; 2; 0; 0] to the left merges
    the two 2s (the sum phase changes the grid and scores 4), no tile
    slides afterwards, and the flag is false. *)
Lemma push_blocks_changed_counterexample :
  _horizontal_sum merge_only_table "a" = Ok (merge_only_result, 4)
  /\ merge_only_result <> merge_only_table
  /\ _horizontal_move merge_only_result "a" = Ok (merge_only_result, false)
  /\ push_blocks merge_only_table "A" = Ok (merge_only_result, (4, false)).
Proof.
  split; [reflexivity|]. split; [discriminate|]. split; reflexivity.
Qed.

(** ** The score of the sum phase (claim C2) *)

Lemma sum_phase_score (vertical fwd : bool) (t : table) :
  wf_table t ->
  lsum (map (gain fwd) (lines vertical t))
  = 2 * merged_total t (on_lines vertical (merged fwd) t).
Proof.
  intros Hwf; table_cells Hwf.
  destruct vertical; unfold on_lines, lines, merged_total.
  - cbn [transpose col map nth].
    rewrite !gain_vanished by reflexivity.
    line_shapes.
    unfold line_vanished; cbn [combine map fst snd lsum fold_right nth]. lia.
  - cbn [map combine fst snd lsum fold_right].
    rewrite !gain_vanished by reflexivity. lia.
Qed.

(** C2, as the code has it.  On a 4x4 grid, for every direction, the sum
    phase returns and leaves the sum of the grid unchanged (a tile of 2v
    and an empty cell replace two tiles of v), and the score it returns is
    the sum of the new tiles: twice the sum of the values v of the tiles it
    merged away. *)
Theorem sum_phase_keeps_sum_and_scores_new_tiles (t : table)
  (direction : string) (Hwf : wf_table t) (Hdir : valid_direction direction) :
  exists t1 score,
    sum_phase t (is_vertical direction) (is_forward direction)
    = Ok (t1, score)
    /\ grid_sum t1 = grid_sum t
    /\ score = 2 * merged_total t t1.
Proof.
  destruct (valid_direction_key _ Hdir) as (vertical & fwd & ->).
  rewrite is_vertical_key, is_forward_key.
  rewrite sum_phase_lines by assumption.
  do 2 eexists. split; [reflexivity|]. split.
  - apply grid_sum_on_lines; auto using merged_length, merged_lsum.
  - now apply sum_phase_score.
Qed.

Lemma sum_phase_keeps_sum_and_scores_new_tiles_witness :
  exists t1 score,
    sum_phase sample_table false true = Ok (t1, score)
    /\ grid_sum t1 = grid_sum sample_table
    /\ score = 2 * merged_total sample_table t1.
Proof.
  apply (sum_phase_keeps_sum_and_scores_new_tiles sample_table "A").
  - apply wf_tableb_sound; reflexivity.
  - unfold valid_direction; simpl; tauto.
Defined.

(** C2 as stated fails: merging the two 2s of the row [2; 2; 0; 0] (one
    merge, of value 2) leaves the sum of the grid at 4, not 4 + 2, and
    scores 4, not 2. *)
Lemma sum_phase_gain_counterexample :
  _horizontal_sum merge_only_table "a" = Ok (merge_only_result, 4)
  /\ merged_total merge_only_table merge_only_result = 2
  /\ grid_sum merge_only_result
     <> grid_sum merge_only_table
        + merged_total merge_only_table merge_only_result
  /\ 4 <> merged_total merge_only_table merge_only_result.
Proof.
  repeat split; try reflexivity; discriminate.
Qed.

(** ** Pushing twice (claim C3) *)

Ltac zero_cases a b c d :=
  destruct (Z.eq_dec a 0), (Z.eq_dec b 0), (Z.eq_dec c 0), (Z.eq_dec d 0);
  subst.

(** Evaluates [pack] on a line whose empty cells are known. *)
Ltac pack_now :=
  unfold pack, nonzeros, nonzero;
  repeat first
    [ progress cbn [filter negb List.length app repeat Nat.sub]
    | rewrite Z.eqb_refl
    | known_test ].


Lemma gain_zero_merged (fwd : bool) (l : list Z) :
  List.length l = 4%nat -> Forall (fun x => 0 <= x) l -> gain fwd l = 0 ->
  merged fwd l = l.
Proof.
  intros Hl HP; line4 Hl. forall4.
  zero_cases a b c d; destruct fwd; line_exec; intros;
    try (exfalso; lia); reflexivity.
Qed.



Lemma lsum_gain_nonneg (fwd : bool) (ls : table) :
  Forall (fun l => List.length l = 4%nat) ls ->
  Forall (Forall (fun x => 0 <= x)) ls ->
  0 <= lsum (map (gain fwd) ls).
Proof.
  induction 1 as [|l ls Hl _ IH]; intros HP; cbn [map lsum fold_right];
    [lia|].
  inversion HP; subst.
  pose proof (gain_nonneg fwd l Hl ltac:(assumption)).
  specialize (IH ltac:(assumption)). unfold lsum in IH. lia.
Qed.







(** ** The example of the specification (claim C4) *)

(** C4, as the code has it.  Pushing the grid whose first row is
    [4; 2; 2; 0], all other cells 0, to the left gives the first row
    [4; 4; 0; 0] with the other rows still 0 and the score 4; the flag is
    false, since the merge leaves no tile to slide. *)
Theorem push_blocks_spec_example :
  push_blocks spec_example "A" = Ok (spec_example_pushed, (4, false)).
Proof. reflexivity. Qed.

(** C4 as stated fails: the flag returned is not true. *)
Lemma push_blocks_spec_example_counterexample :
  push_blocks spec_example "A" <> Ok (spec_example_pushed, (4, true)).
Proof. discriminate. Qed.

(** ** Scan axis and scan order (claim C5) *)

(** The scan of a line visits the pivots of its direction, in order. *)
Lemma line_sum_run_pivots (fwd : bool) (s : list Z * Z) :
  line_sum_run fwd s
  = (let '(_, idx_end, iteration_factor) := params fwd in
     for_each (pivots (h_dir fwd) "a")
       (sum_idx_body (@getitem Z) (@setitem Z) idx_end iteration_factor) s).
Proof. destruct fwd; reflexivity. Qed.

Lemma line_move_run_pivots (fwd : bool) (s : list Z * bool) :
  line_move_run fwd s
  = (let '(_, idx_end, iteration_factor) := params fwd in
     for_each (pivots (h_dir fwd) "a")
       (move_idx_body (@getitem Z) (@setitem Z) idx_end iteration_factor) s).
Proof. destruct fwd; reflexivity. Qed.

(** The evaluation of the scans of the specification on a line of four
    cells, the tests on cell values decided as for the source's loops. *)
Ltac spec_scan :=
  repeat first
    [ progress lazy -[Z.eqb Z.mul Z.add Z.le Z.lt Z.ge Z.gt not]
    | rewrite Z.eqb_refl
    | known_test
    | match goal with
      | |- context [Z.eqb ?x ?y] =>
          lazymatch x with
          | context [Z.eqb _ _] => fail
          | _ => idtac
          end;
          lazymatch y with
          | context [Z.eqb _ _] => fail
          | _ => idtac
          end;
          destruct (Z.eqb_spec x y); try (exfalso; lia); subst
      end ].

Lemma line_sum_spec (fwd : bool) (l : list Z) :
  List.length l = 4%nat ->
  line_sum fwd l = spec_merge (scan_order fwd) (scan_step fwd) l.
Proof.
  intros Hl; line4 Hl.
  destruct fwd; unfold line_sum; line_exec; spec_scan; reflexivity.
Qed.

Lemma line_move_spec (fwd : bool) (l : list Z) :
  List.length l = 4%nat ->
  line_move fwd l = spec_compact (scan_order fwd) (scan_step fwd) l.
Proof.
  intros Hl; line4 Hl.
  destruct fwd; unfold line_move; line_exec; spec_scan; reflexivity.
Qed.

Lemma pivots_scan_order (fwd : bool) :
  pivots (h_dir fwd) "a" = scan_order fwd
  /\ pivots (v_dir fwd) "w" = scan_order fwd.
Proof. destruct fwd; split; reflexivity. Qed.

Lemma map_line_sum_spec (fwd : bool) (ls : table) :
  Forall (fun l => List.length l = 4%nat) ls ->
  map (merged fwd) ls
  = map (fun l => fst (spec_merge (scan_order fwd) (scan_step fwd) l)) ls
  /\ map (gain fwd) ls
     = map (fun l => snd (spec_merge (scan_order fwd) (scan_step fwd) l)) ls.
Proof.
  induction 1 as [|l ls Hl _ [IH1 IH2]]; [split; reflexivity|].
  cbn [map]. rewrite IH1, IH2. unfold merged, gain.
  rewrite (line_sum_spec fwd l Hl). split; reflexivity.
Qed.

Lemma map_line_move_spec (fwd : bool) (ls : table) :
  Forall (fun l => List.length l = 4%nat) ls ->
  map (packed fwd) ls
  = map (fun l => fst (spec_compact (scan_order fwd) (scan_step fwd) l)) ls
  /\ existsb (slid fwd) ls
     = existsb
         (fun l => snd (spec_compact (scan_order fwd) (scan_step fwd) l)) ls.
Proof.
  induction 1 as [|l ls Hl _ [IH1 IH2]]; [split; reflexivity|].
  cbn [map existsb]. rewrite IH1, IH2. unfold packed, slid.
  rewrite (line_move_spec fwd l Hl). split; reflexivity.
Qed.

(** C5, as the code has it.  On a 4x4 grid each of the four phase
    functions returns, and what it returns is the scan of the
    specification run on every row (the horizontal functions) or on every
    column (the vertical ones), with the pivots visited in ascending
    order, 0, 1, 2, and the cursor stepping up for left ("a") and up
    ("w"), and with the pivots visited in descending order, 3, 2, 1, and
    the cursor stepping down for right ("d") and down ("s"): the scan
    starts at the edge the tiles are pushed to and walks away from it. *)
Theorem scan_axis_and_order (t : table) (fwd : bool) (Hwf : wf_table t) :
  _horizontal_sum t (h_dir fwd)
  = Ok (map (fun l => fst (spec_merge (scan_order fwd) (scan_step fwd) l)) t,
        lsum
          (map (fun l => snd (spec_merge (scan_order fwd) (scan_step fwd) l))
               t))
  /\ _horizontal_move t (h_dir fwd)
     = Ok (map
             (fun l => fst (spec_compact (scan_order fwd) (scan_step fwd) l))
             t,
           existsb
             (fun l => snd (spec_compact (scan_order fwd) (scan_step fwd) l))
             t)
  /\ _vertical_sum t (v_dir fwd)
     = Ok (transpose
             (map
                (fun l => fst (spec_merge (scan_order fwd) (scan_step fwd) l))
                (transpose t)),
           lsum
             (map
                (fun l => snd (spec_merge (scan_order fwd) (scan_step fwd) l))
                (transpose t)))
  /\ _vertical_move t (v_dir fwd)
     = Ok (transpose
             (map
                (fun l =>
                   fst (spec_compact (scan_order fwd) (scan_step fwd) l))
                (transpose t)),
           existsb
             (fun l => snd (spec_compact (scan_order fwd) (scan_step fwd) l))
             (transpose t)).
Proof.
  pose proof Hwf as [_ Hrows].
  pose proof (wf_transpose t Hwf) as [_ Hcols].
  destruct (map_line_sum_spec fwd t Hrows) as [Es Eg].
  destruct (map_line_move_spec fwd t Hrows) as [Ep Em].
  destruct (map_line_sum_spec fwd (transpose t) Hcols) as [Es' Eg'].
  destruct (map_line_move_spec fwd (transpose t) Hcols) as [Ep' Em'].
  rewrite <- Es, <- Eg, <- Ep, <- Em, <- Es', <- Eg', <- Ep', <- Em'.
  repeat split.
  - now apply horizontal_sum_lines.
  - now apply horizontal_move_lines.
  - now apply vertical_sum_lines.
  - now apply vertical_move_lines.
Qed.

Lemma scan_axis_and_order_witness :
  _horizontal_sum sample_table "a"
  = Ok (map (fun l => fst (spec_merge [0; 1; 2] 1 l)) sample_table,
        lsum (map (fun l => snd (spec_merge [0; 1; 2] 1 l)) sample_table))
  /\ _horizontal_move sample_table "a"
     = Ok (map (fun l => fst (spec_compact [0; 1; 2] 1 l)) sample_table,
           existsb (fun l => snd (spec_compact [0; 1; 2] 1 l)) sample_table)
  /\ _vertical_sum sample_table "w"
     = Ok (transpose
             (map (fun l => fst (spec_merge [0; 1; 2] 1 l))
                  (transpose sample_table)),
           lsum
             (map (fun l => snd (spec_merge [0; 1; 2] 1 l))
                  (transpose sample_table)))
  /\ _vertical_move sample_table "w"
     = Ok (transpose
             (map (fun l => fst (spec_compact [0; 1; 2] 1 l))
                  (transpose sample_table)),
           existsb (fun l => snd (spec_compact [0; 1; 2] 1 l))
                   (transpose sample_table)).
Proof.
  apply (scan_axis_and_order sample_table true).
  apply wf_tableb_sound; reflexivity.
Defined.

(** C5 as stated fails: it has the two orders exchanged, and the order
    shows in the result.  In the row [2; 2; 2; 0] the sum to the left
    merges the two leftmost 2s; a visit of the pivots in descending order
    would merge the second and the third.  The sum to the right merges the
    second and the third, the first pair from the right edge; a visit in
    ascending order would merge the two leftmost. *)
Lemma scan_order_counterexample :
  (_horizontal_sum three_twos "a"
   = Ok ([[4; 0; 2; 0]; [0; 0; 0; 0]; [0; 0; 0; 0]; [0; 0; 0; 0]], 4)
   /\ descending [2; 1; 0] = true
   /\ spec_merge [2; 1; 0] 1 [2; 2; 2; 0] = ([2; 4; 0; 0], 4))
  /\ (_horizontal_sum three_twos "d"
      = Ok ([[2; 0; 4; 0]; [0; 0; 0; 0]; [0; 0; 0; 0]; [0; 0; 0; 0]], 4)
      /\ ascending [1; 2; 3] = true
      /\ spec_merge [1; 2; 3] (-1) [2; 2; 2; 0] = ([0; 4; 2; 0], 4))
  /\ push_blocks three_twos "A"
     = Ok ([[4; 2; 0; 0]; [0; 0; 0; 0]; [0; 0; 0; 0]; [0; 0; 0; 0]],
           (4, true))
  /\ push_blocks three_twos "D"
     = Ok ([[0; 0; 2; 4]; [0; 0; 0; 0]; [0; 0; 0; 0]; [0; 0; 0; 0]],
           (4, true)).
Proof. repeat split; reflexivity. Qed.

(** * Further properties of the grid functions *)

(** ** A push that changes nothing *)

Lemma double_eqb_zero (x : Z) : x <> 0 -> (x * 2 =? 0) = false.
Proof. intros H; apply Z.eqb_neq; lia. Qed.

(** Evaluates [pack] on a line of known empty cells, after a merge. *)
Ltac pack_merged :=
  unfold pack, nonzeros, nonzero;
  repeat first
    [ progress cbn [filter negb List.length app repeat Nat.sub]
    | rewrite Z.eqb_refl
    | known_test
    | match goal with
      | H : ?x <> 0 |- context [Z.eqb (?x * 2) 0] =>
          rewrite (double_eqb_zero x H)
      end ].

(** The execution of a scan by reduction, the tests on cell values kept
    folded: each is decided by a hypothesis or splits the goal. *)
Ltac scan_eval := lazy -[Z.eqb Z.mul Z.add Z.le Z.lt Z.ge Z.gt not].

Ltac scan_test :=
  first
    [ rewrite Z.eqb_refl
    | known_test
    | match goal with
      | H : ?x <> 0 |- context [Z.eqb (?x * 2) 0] =>
          rewrite (double_eqb_zero x H)
      end
    | match goal with
      | |- context [Z.eqb ?x ?y] =>
          destruct (Z.eqb_spec x y); [try subst|]; try congruence
      end ].

Ltac scan_exec :=
  unfold merged, gain, packed, slid, line_sum, line_move,
    line_sum_run, line_move_run, params;
  rewrite ?sum_line_fwd, ?sum_line_bwd, ?move_line_fwd, ?move_line_bwd;
  scan_eval; repeat (scan_test; scan_eval).

Lemma unchanged_line (fwd : bool) (l : list Z) :
  List.length l = 4%nat ->
  packed fwd (merged fwd l) = l ->
  merged fwd l = l /\ gain fwd l = 0 /\ packed fwd l = l.
Proof.
  intros Hl. rewrite !packed_pack by auto using merged_length.
  line4 Hl.
  destruct fwd; scan_exec; intros E;
    first [ repeat split; (reflexivity || exact E)
          | exfalso; injection E; intros; lia ].
Qed.

Lemma stuck_line (fwd : bool) (a b c d : Z) :
  a <> 0 -> b <> 0 -> c <> 0 -> d <> 0 -> a <> b -> b <> c -> c <> d ->
  merged fwd [a; b; c; d] = [a; b; c; d]
  /\ gain fwd [a; b; c; d] = 0
  /\ packed fwd [a; b; c; d] = [a; b; c; d]
  /\ slid fwd [a; b; c; d] = false.
Proof.
  intros; destruct fwd; scan_exec; repeat split; reflexivity.
Qed.

Lemma gap_slides (l : list Z) (i j : nat) :
  List.length l = 4%nat -> (i < 4)%nat -> (j < 4)%nat ->
  nth i l 0 = 0 -> nth j l 0 <> 0 ->
  pack true l <> l \/ pack false l <> l.
Proof.
  intros Hl Hi Hj; line4 Hl.
  zero_cases a b c d;
    (destruct i as [|[|[|[|i]]]]; try lia);
    (destruct j as [|[|[|[|j]]]]; try lia);
    cbn [nth]; intros E0 Hn; try congruence; pack_now;
    first [ left; intros E; injection E; intros; congruence
          | right; intros E; injection E; intros; congruence ].
Qed.

Lemma pair_merges (fwd : bool) (l : list Z) (i : nat) :
  List.length l = 4%nat -> (i < 3)%nat ->
  nth i l 0 = nth (S i) l 0 -> nth i l 0 <> 0 ->
  merged fwd l <> l.
Proof.
  intros Hl Hi; line4 Hl.
  destruct i as [|[|[|i]]]; try lia; cbn [nth]; intros E0 Hn; subst;
    destruct fwd; scan_exec; intros E; injection E; intros; lia.
Qed.

Lemma gain_makes_room (fwd : bool) (l : list Z) :
  List.length l = 4%nat -> gain fwd l <> 0 -> In 0 (merged fwd l).
Proof.
  intros Hl; line4 Hl.
  destruct fwd; scan_exec; intros Hg; simpl; tauto.
Qed.

Lemma pack_keeps_room (fwd : bool) (l : list Z) :
  List.length l = 4%nat -> In 0 l -> In 0 (pack fwd l).
Proof.
  intros Hl; line4 Hl.
  zero_cases a b c d; destruct fwd; pack_now; simpl; tauto.
Qed.

Lemma pack_moves_into_room (fwd : bool) (l : list Z) :
  List.length l = 4%nat -> pack fwd l <> l -> In 0 l.
Proof.
  intros Hl; line4 Hl.
  zero_cases a b c d; destruct fwd; pack_now; simpl; intros E;
    first [ tauto | now elim E ].
Qed.

Lemma in_pack (fwd : bool) (x : Z) (l : list Z) :
  In x (pack fwd l) -> x = 0 \/ In x l.
Proof.
  unfold pack, nonzeros; destruct fwd; intros H;
    apply in_app_or in H as [H|H];
    first [ apply filter_In in H; tauto
          | apply repeat_spec in H; auto ].
Qed.

Lemma merge_creates (fwd : bool) (x : Z) (l : list Z) :
  List.length l = 4%nat -> Forall (fun y => 0 <= y) l -> 0 < x ->
  In x (merged fwd l) -> ~ In x l -> x <= gain fwd l.
Proof.
  intros Hl HP Hx; line4 Hl. forall4.
  destruct fwd; scan_exec; simpl; intros; lia.
Qed.

Lemma mirror_line (l : list Z) :
  List.length l = 4%nat ->
  merged false (rev l) = rev (merged true l)
  /\ gain false (rev l) = gain true l
  /\ packed false (rev l) = rev (packed true l)
  /\ slid false (rev l) = slid true l.
Proof.
  intros Hl; line4 Hl. cbn [rev app].
  repeat split; scan_exec; reflexivity.
Qed.

(** ** Lines and cells *)

Lemma map_fixed {A : Type} (f : A -> A) (l : list A) :
  map f l = l <-> Forall (fun x => f x = x) l.
Proof.
  induction l as [|x l IH]; simpl.
  - split; [constructor | reflexivity].
  - split.
    + intros E; injection E as E1 E2. constructor; [assumption|now apply IH].
    + intros H; inversion H; subst. f_equal; [assumption|now apply IH].
Qed.

Lemma on_lines_fixed (vertical : bool) (f : list Z -> list Z) (t : table) :
  (forall l, List.length l = 4%nat -> List.length (f l) = 4%nat) ->
  wf_table t ->
  (on_lines vertical f t = t
   <-> Forall (fun l => f l = l) (lines vertical t)).
Proof.
  intros Hf Hwf. rewrite <- map_fixed. split; intros E.
  - rewrite <- (lines_on_lines vertical f t) by assumption. now rewrite E.
  - unfold on_lines. rewrite E. now apply lines_involutive.
Qed.

Lemma pushed_length (fwd : bool) (l : list Z) :
  List.length l = 4%nat -> List.length (pushed fwd l) = 4%nat.
Proof. apply packed_merged_length. Qed.

Lemma line_length (vertical : bool) (k : nat) (t : table) :
  wf_table t -> (k < 4)%nat -> List.length (line vertical k t) = 4%nat.
Proof. destruct vertical; simpl; auto using row_length, col_length. Qed.

Lemma line_nth (vertical : bool) (k : nat) (t : table) :
  wf_table t -> (k < 4)%nat ->
  line vertical k t = nth k (lines vertical t) [].
Proof.
  intros Hwf Hk; table_cells Hwf.
  destruct vertical; destruct k as [|[|[|[|k]]]]; try lia; reflexivity.
Qed.

Lemma nth_line (vertical : bool) (k i : nat) (t : table) :
  nth i (line vertical k t) 0
  = if vertical then cell t i k else cell t k i.
Proof.
  destruct vertical; [|reflexivity].
  unfold line, col, cell. revert i.
  induction t as [|r t IH]; intros [|i]; simpl; auto; now destruct k.
Qed.

Lemma in_lines (vertical : bool) (l : list Z) (t : table) :
  wf_table t -> In l (lines vertical t) ->
  exists k, (k < 4)%nat /\ l = line vertical k t.
Proof.
  intros Hwf Hin.
  pose proof (wf_lines_of vertical t Hwf) as [Hlen _].
  apply (In_nth _ _ []) in Hin as (k & Hk & <-).
  exists k; split; [lia|]. symmetry; apply line_nth; [assumption|lia].
Qed.

Lemma line_in_lines (vertical : bool) (k : nat) (t : table) :
  wf_table t -> (k < 4)%nat -> In (line vertical k t) (lines vertical t).
Proof.
  intros Hwf Hk. rewrite line_nth by assumption.
  pose proof (wf_lines_of vertical t Hwf) as [Hlen _].
  apply nth_In. lia.
Qed.

Lemma nonneg_lines (vertical : bool) (t : table) :
  wf_table t -> nonneg_table t ->
  Forall (Forall (fun x => 0 <= x)) (lines vertical t).
Proof.
  intros Hwf Hnn. destruct vertical; [now apply forall_transpose|exact Hnn].
Qed.

(** ** A push reports a change exactly when the grid changed *)

Lemma quiet_lines (fwd : bool) (ls : table) :
  Forall (fun l => List.length l = 4%nat) ls ->
  Forall (Forall (fun x => 0 <= x)) ls ->
  (Forall (fun l => pushed fwd l = l) ls
   <-> lsum (map (gain fwd) ls) = 0
       /\ existsb (slid fwd) (map (merged fwd) ls) = false).
Proof.
  induction 1 as [|l ls Hl Hls IH]; intros HP.
  - simpl; split; [auto | constructor].
  - inversion HP as [|? ? HPl HPls]; subst.
    specialize (IH HPls).
    pose proof (gain_nonneg fwd l Hl HPl) as Hg0.
    pose proof (lsum_gain_nonneg fwd ls Hls HPls) as Hs0.
    cbn [map lsum fold_right existsb]. unfold lsum in *.
    rewrite orb_false_iff. split.
    + intros H; inversion H as [|? ? Hp Hrest]; subst.
      apply IH in Hrest as [Hs Hf].
      destruct (unchanged_line fwd l Hl Hp) as (Em & Eg & Ep).
      rewrite Em, Eg, Hs. repeat split; try assumption; try lia.
      destruct (slid fwd l) eqn:Es; [|reflexivity].
      apply slid_spec in Es; [contradiction | assumption].
    + intros [Hs [Hsl Hf]].
      assert (Eg : gain fwd l = 0) by lia.
      constructor.
      * unfold pushed.
        rewrite (gain_zero_merged fwd l Hl HPl Eg) in *.
        now apply slid_false.
      * apply IH; split; [lia | assumption].
Qed.

Lemma on_lines_pushed_fixed (vertical fwd : bool) (t : table) :
  wf_table t -> nonneg_table t ->
  (on_lines vertical (pushed fwd) t = t
   <-> lsum (map (gain fwd) (lines vertical t)) = 0
       /\ existsb (slid fwd) (map (merged fwd) (lines vertical t)) = false).
Proof.
  intros Hwf Hnn.
  rewrite on_lines_fixed by auto using pushed_length.
  apply quiet_lines.
  - apply wf_lines_of; assumption.
  - now apply nonneg_lines.
Qed.

(** X1.  On a 4x4 grid of non-negative cells, for every direction,
    [push_blocks] leaves the grid as it was exactly when it returns the
    score 0 and the flag false: the test [turn_moves or turn_score] of the
    caller is true exactly when the grid changed. *)
Theorem push_blocks_unchanged_iff (t : table) (direction : string)
  (Hwf : wf_table t) (Hnonneg : nonneg_table t)
  (Hdir : valid_direction direction) :
  exists t' score changed,
    push_blocks t direction = Ok (t', (score, changed))
    /\ (t' = t <-> score = 0 /\ changed = false).
Proof.
  destruct (valid_direction_key _ Hdir) as (vertical & fwd & ->).
  rewrite push_blocks_lines by assumption.
  do 3 eexists; split; [reflexivity|].
  now apply on_lines_pushed_fixed.
Qed.

Lemma push_blocks_unchanged_iff_witness :
  exists t' score changed,
    push_blocks sample_table "D" = Ok (t', (score, changed))
    /\ (t' = sample_table <-> score = 0 /\ changed = false).
Proof.
  apply (push_blocks_unchanged_iff sample_table "D").
  - apply wf_tableb_sound; reflexivity.
  - unfold nonneg_table, sample_table; repeat constructor; lia.
  - unfold valid_direction; simpl; tauto.
Defined.

(** ** A grid with no move left *)

(** Turns [H : b = false], [b] a disjunction of tests on cells, into the
    inequalities of the cells. *)
Ltac tests_false H :=
  lazy -[Z.eqb] in H;
  repeat match type of H with
         | context [Z.eqb ?x ?y] =>
             destruct (Z.eqb_spec x y); [discriminate H|]
         end;
  clear H.

Ltac stuck_lines fwd :=
  repeat match goal with
         | |- context [merged fwd [?a; ?b; ?c; ?d]] =>
             let S := fresh "S" in
             pose proof (stuck_line fwd a b c d) as S;
             do 7 (specialize (S ltac:(assumption)));
             destruct S as (-> & -> & _ & _)
         end;
  repeat match goal with
         | |- context [packed fwd [?a; ?b; ?c; ?d]] =>
             let S := fresh "S" in
             pose proof (stuck_line fwd a b c d) as S;
             do 7 (specialize (S ltac:(assumption)));
             destruct S as (_ & _ & -> & _)
         end;
  repeat match goal with
         | |- context [slid fwd [?a; ?b; ?c; ?d]] =>
             let S := fresh "S" in
             pose proof (stuck_line fwd a b c d) as S;
             do 7 (specialize (S ltac:(assumption)));
             destruct S as (_ & _ & _ & ->)
         end.

(** X2.  When [can_move] returns false on a 4x4 grid, [push_blocks] in
    every direction returns score 0 and the flag false and leaves the grid
    as it is: the match is declared lost only when no key changes the
    grid. *)
Theorem stuck_grid_push_is_noop (t : table) (direction : string)
  (Hwf : wf_table t) (Hdir : valid_direction direction)
  (Hstuck : can_move t = Ok false) :
  push_blocks t direction = Ok (t, (0, false)).
Proof.
  rewrite can_move_ok in Hstuck by assumption.
  injection Hstuck as Hstuck.
  apply orb_false_iff in Hstuck as [Hstuck Hcol].
  apply orb_false_iff in Hstuck as [Hempty Hrow].
  destruct (valid_direction_key _ Hdir) as (vertical & fwd & ->).
  rewrite push_blocks_lines by assumption.
  table_cells Hwf.
  tests_false Hempty. tests_false Hrow. tests_false Hcol.
  destruct vertical; unfold on_lines, lines;
    cbn [transpose col map nth]; stuck_lines fwd;
    cbn [map existsb lsum fold_right nth]; stuck_lines fwd; reflexivity.
Qed.

Lemma stuck_grid_push_is_noop_witness :
  push_blocks stuck_table "W" = Ok (stuck_table, (0, false)).
Proof.
  apply (stuck_grid_push_is_noop stuck_table "W").
  - apply wf_tableb_sound; reflexivity.
  - unfold valid_direction; simpl; tauto.
  - reflexivity.
Defined.

(** ** A grid with a move left *)

Lemma line_changes_table (vertical fwd : bool) (k : nat) (t : table) :
  wf_table t -> (k < 4)%nat ->
  pushed fwd (line vertical k t) <> line vertical k t ->
  on_lines vertical (pushed fwd) t <> t.
Proof.
  intros Hwf Hk Hne E. apply Hne.
  rewrite <- (line_on_lines vertical (pushed fwd) k t)
    by auto using pushed_length.
  now rewrite E.
Qed.

Lemma gap_pushes (vertical : bool) (k i j : nat) (t : table) :
  wf_table t -> (k < 4)%nat -> (i < 4)%nat -> (j < 4)%nat ->
  nth i (line vertical k t) 0 = 0 -> nth j (line vertical k t) 0 <> 0 ->
  exists fwd, on_lines vertical (pushed fwd) t <> t.
Proof.
  intros Hwf Hk Hi Hj H0 Hn.
  pose proof (line_length vertical k t Hwf Hk) as Hl.
  assert (Hpack : forall fwd,
             pack fwd (line vertical k t) <> line vertical k t ->
             on_lines vertical (pushed fwd) t <> t).
  { intros fwd Hne. apply (line_changes_table vertical fwd k); auto.
    intros E. apply unchanged_line in E as (_ & _ & E); [|assumption].
    rewrite packed_pack in E by assumption. contradiction. }
  destruct (gap_slides _ i j Hl Hi Hj H0 Hn) as [H|H]; eauto.
Qed.

Lemma pair_pushes (vertical : bool) (k i : nat) (t : table) :
  wf_table t -> (k < 4)%nat -> (i < 3)%nat ->
  nth i (line vertical k t) 0 = nth (S i) (line vertical k t) 0 ->
  nth i (line vertical k t) 0 <> 0 ->
  on_lines vertical (pushed true) t <> t.
Proof.
  intros Hwf Hk Hi He Hn.
  pose proof (line_length vertical k t Hwf Hk) as Hl.
  apply (line_changes_table vertical true k); auto.
  intros E. apply unchanged_line in E as (E & _ & _); [|assumption].
  now apply (pair_merges true _ i Hl Hi He Hn).
Qed.

Lemma push_changes (vertical fwd : bool) (t : table) :
  wf_table t -> on_lines vertical (pushed fwd) t <> t ->
  exists direction t' outcome,
    valid_direction direction
    /\ push_blocks t direction = Ok (t', outcome) /\ t' <> t.
Proof.
  intros Hwf Hne. exists (key vertical fwd).
  rewrite push_blocks_lines by assumption.
  do 2 eexists. split; [|split; [reflexivity|exact Hne]].
  unfold valid_direction; destruct vertical, fwd; simpl; tauto.
Qed.

Lemma zero_cell_pushes (t : table) (r c r0 c0 : nat) :
  wf_table t -> (r < 4)%nat -> (c < 4)%nat -> (r0 < 4)%nat -> (c0 < 4)%nat ->
  cell t r c = 0 -> cell t r0 c0 <> 0 ->
  exists vertical fwd, on_lines vertical (pushed fwd) t <> t.
Proof.
  intros Hwf Hr Hc Hr0 Hc0 H0 Hn.
  destruct (Z.eq_dec (cell t r c0) 0) as [E|E].
  - exists true.
    apply (gap_pushes true c0 r r0); auto; now rewrite nth_line.
  - exists false.
    apply (gap_pushes false r c c0); auto; now rewrite nth_line.
Qed.

(** X3.  When [can_move] returns true on a 4x4 grid that holds at least
    one tile, some direction changes the grid: with the previous theorem,
    [can_move] is false exactly when no push changes the grid (the empty
    grid apart, which no push changes either). *)
Theorem movable_grid_has_push (t : table) (Hwf : wf_table t)
  (Hmove : can_move t = Ok true)
  (Htile : exists r c, (r < 4)%nat /\ (c < 4)%nat /\ cell t r c <> 0) :
  exists direction t' outcome,
    valid_direction direction
    /\ push_blocks t direction = Ok (t', outcome) /\ t' <> t.
Proof.
  destruct Htile as (r0 & c0 & Hr0 & Hc0 & Hn).
  rewrite can_move_ok in Hmove by assumption. injection Hmove as Hb.
  apply orb_true_iff in Hb as [Hb|Hb];
    [apply orb_true_iff in Hb as [Hb|Hb]|].
  1: apply has_empty_spec in Hb as (r & c & Hr & Hc & H0).
  2: apply has_equal_in_row_spec in Hb as (r & c & Hr & Hc & He).
  3: apply has_equal_in_col_spec in Hb as (r & c & Hr & Hc & He).
  - destruct (zero_cell_pushes t r c r0 c0) as (v & f & H); auto.
    now apply (push_changes v f).
  - destruct (Z.eq_dec (cell t r c) 0) as [H0|H0].
    + destruct (zero_cell_pushes t r c r0 c0) as (v & f & H);
        auto; try lia.
      now apply (push_changes v f).
    + apply (push_changes false true); [assumption|].
      apply (pair_pushes false r c); auto; now rewrite !nth_line.
  - destruct (Z.eq_dec (cell t r c) 0) as [H0|H0].
    + destruct (zero_cell_pushes t r c r0 c0) as (v & f & H);
        auto; try lia.
      now apply (push_changes v f).
    + apply (push_changes true true); [assumption|].
      apply (pair_pushes true c r); auto; now rewrite !nth_line.
Qed.

Lemma movable_grid_has_push_witness :
  exists direction t' outcome,
    valid_direction direction
    /\ push_blocks sample_table direction = Ok (t', outcome)
    /\ t' <> sample_table.
Proof.
  apply (movable_grid_has_push sample_table).
  - apply wf_tableb_sound; reflexivity.
  - reflexivity.
  - exists 0%nat, 0%nat. repeat split; try lia. discriminate.
Defined.

(** ** A push that changed the grid leaves an empty cell *)

Lemma lsum_nonzero (xs : list Z) :
  lsum xs <> 0 -> exists x, In x xs /\ x <> 0.
Proof.
  induction xs as [|x xs IH]; cbn [lsum fold_right]; [congruence|].
  intros H. destruct (Z.eq_dec x 0) as [->|Hx].
  - destruct IH as (y & Hy & Hy0); [exact H|]. exists y; simpl; auto.
  - exists x; simpl; auto.
Qed.

Lemma changed_line_has_room (fwd : bool) (l : list Z) :
  List.length l = 4%nat ->
  slid fwd (merged fwd l) = true \/ gain fwd l <> 0 ->
  In 0 (pushed fwd l).
Proof.
  intros Hl H.
  pose proof (merged_length fwd l Hl) as Hm.
  unfold pushed. rewrite packed_pack by assumption.
  apply pack_keeps_room; [assumption|].
  destruct H as [H|H].
  - apply (pack_moves_into_room fwd); [assumption|].
    rewrite <- packed_pack by assumption. now apply slid_spec.
  - now apply gain_makes_room.
Qed.

Lemma on_lines_pushed_room (vertical fwd : bool) (t : table) :
  wf_table t ->
  existsb (slid fwd) (map (merged fwd) (lines vertical t)) = true
  \/ lsum (map (gain fwd) (lines vertical t)) <> 0 ->
  exists r c, (r < 4)%nat /\ (c < 4)%nat
              /\ cell (on_lines vertical (pushed fwd) t) r c = 0.
Proof.
  intros Hwf Hchanged.
  assert (Hline : exists l, In l (lines vertical t)
                            /\ In 0 (pushed fwd l)).
  { pose proof (wf_lines_of vertical t Hwf) as [_ Hlen].
    rewrite Forall_forall in Hlen.
    destruct Hchanged as [Hc|Hs].
    - apply existsb_exists in Hc as (m & Hm & Hsl).
      apply in_map_iff in Hm as (l & <- & Hl).
      exists l; split; [assumption|].
      apply changed_line_has_room; auto.
    - apply lsum_nonzero in Hs as (g & Hg & Hg0).
      apply in_map_iff in Hg as (l & <- & Hl).
      exists l; split; [assumption|].
      apply changed_line_has_room; auto. }
  destruct Hline as (l & Hl & Hroom).
  apply in_lines in Hl as (k & Hk & ->); [|assumption].
  apply (In_nth _ _ 0) in Hroom as (i & Hi & Hz).
  rewrite pushed_length in Hi by now apply line_length.
  rewrite <- (line_on_lines vertical (pushed fwd) k t) in Hz
    by auto using pushed_length.
  rewrite nth_line in Hz.
  destruct vertical; eauto.
Qed.

(** X4.  On a 4x4 grid, when [push_blocks] reports a change (the flag is
    true or the score is not 0), the grid it leaves has an empty cell: the
    [insert_block] that follows in the match always finds room, and
    [can_move] is true, so a push that changes the grid never ends the
    match as lost. *)
Theorem changing_push_leaves_room (t t' : table) (direction : string)
  (score : Z) (changed : bool)
  (Hwf : wf_table t) (Hdir : valid_direction direction)
  (Hpush : push_blocks t direction = Ok (t', (score, changed)))
  (Hchanged : changed = true \/ score <> 0) :
  (exists r c, (r < 4)%nat /\ (c < 4)%nat /\ cell t' r c = 0)
  /\ can_move t' = Ok true.
Proof.
  destruct (valid_direction_key _ Hdir) as (vertical & fwd & ->).
  rewrite push_blocks_lines in Hpush by assumption.
  injection Hpush as Ht' Hscore Hflag.
  change (fun l => packed fwd (merged fwd l)) with (pushed fwd) in Ht'.
  assert (Hwf' : wf_table t')
    by (subst t'; apply wf_on_lines; auto using pushed_length).
  assert (Hcell : exists r c, (r < 4)%nat /\ (c < 4)%nat /\ cell t' r c = 0).
  { subst t'. apply on_lines_pushed_room; [assumption|].
    rewrite Hscore, Hflag. exact Hchanged. }
  split; [exact Hcell|].
  rewrite can_move_ok by assumption.
  apply has_empty_spec in Hcell. now rewrite Hcell.
Qed.

Lemma changing_push_leaves_room_witness :
  (exists r c, (r < 4)%nat /\ (c < 4)%nat
               /\ cell [[4; 4; 8; 0]; [8; 0; 0; 0]; [32; 0; 0; 0];
                        [2; 4; 8; 16]] r c = 0)
  /\ can_move [[4; 4; 8; 0]; [8; 0; 0; 0]; [32; 0; 0; 0]; [2; 4; 8; 16]]
     = Ok true.
Proof.
  apply (changing_push_leaves_room sample_table _ "A" 44 true).
  - apply wf_tableb_sound; reflexivity.
  - unfold valid_direction; simpl; tauto.
  - reflexivity.
  - now left.
Defined.

(** ** The push that wins *)

Lemma has_won_cells (t : table) :
  has_won t = true
  <-> exists r c, (r < List.length t)%nat
                  /\ (c < List.length (nth r t []))%nat
                  /\ cell t r c = 2048.
Proof.
  unfold has_won, cell. rewrite existsb_exists. split.
  - intros (rw & Hrw & H). apply existsb_exists in H as (x & Hx & E).
    apply Z.eqb_eq in E; subst x.
    apply (In_nth _ _ []) in Hrw as (r & Hr & <-).
    apply (In_nth _ _ 0) in Hx as (c & Hc & Hx).
    eauto.
  - intros (r & c & Hr & Hc & E).
    exists (nth r t []). split; [now apply nth_In|].
    apply existsb_exists. exists 2048. split; [|reflexivity].
    rewrite <- E. now apply nth_In.
Qed.

Lemma has_won_lines (vertical : bool) (t : table) :
  wf_table t ->
  (has_won t = true
   <-> exists k, (k < 4)%nat /\ In 2048 (line vertical k t)).
Proof.
  intros Hwf. rewrite has_won_cells. split.
  - intros (r & c & Hr & Hc & E).
    assert (Hr4 : (r < 4)%nat) by (destruct Hwf as [Hl _]; lia).
    assert (Hc4 : (c < 4)%nat).
    { pose proof (row_length r Hr4 t Hwf) as Hrow. unfold row in Hrow. lia. }
    destruct vertical.
    + exists c; split; [assumption|]. rewrite <- E.
      replace (cell t r c) with (nth r (line true c t) 0)
        by now rewrite nth_line.
      apply nth_In. rewrite line_length; assumption.
    + exists r; split; [assumption|]. rewrite <- E.
      replace (cell t r c) with (nth c (line false r t) 0)
        by now rewrite nth_line.
      apply nth_In. rewrite line_length; assumption.
  - intros (k & Hk & Hin).
    apply (In_nth _ _ 0) in Hin as (i & Hi & E).
    rewrite line_length in Hi by assumption.
    rewrite nth_line in E.
    destruct Hwf as [Hlen Hrows].
    assert (Hrow : forall r, (r < 4)%nat -> List.length (nth r t []) = 4%nat).
    { intros r Hr. rewrite Forall_forall in Hrows.
      apply Hrows, nth_In. lia. }
    destruct vertical.
    + exists i, k. rewrite Hlen, Hrow by assumption. auto.
    + exists k, i. rewrite Hlen, Hrow by assumption. auto.
Qed.

Lemma gain_le_total (fwd : bool) (l : list Z) (ls : table) :
  Forall (fun l => List.length l = 4%nat) ls ->
  Forall (Forall (fun x => 0 <= x)) ls ->
  In l ls -> gain fwd l <= lsum (map (gain fwd) ls).
Proof.
  induction 1 as [|l0 ls Hl0 Hls IH]; intros HP Hin; [contradiction|].
  inversion HP as [|? ? HP0 HPs]; subst.
  pose proof (gain_nonneg fwd l0 Hl0 HP0).
  pose proof (lsum_gain_nonneg fwd ls Hls HPs) as Hs.
  cbn [map lsum fold_right]. unfold lsum in *.
  destruct Hin as [->|Hin]; [lia|].
  specialize (IH HPs Hin). lia.
Qed.

(** X5.  On a 4x4 grid of non-negative cells with no 2048 tile, a push
    after which [has_won] is true created that tile by a merge: its score
    is at least 2048. *)
Theorem winning_push_scores (t t' : table) (direction : string)
  (score : Z) (changed : bool)
  (Hwf : wf_table t) (Hnonneg : nonneg_table t)
  (Hdir : valid_direction direction)
  (Hbefore : has_won t = false)
  (Hpush : push_blocks t direction = Ok (t', (score, changed)))
  (Hafter : has_won t' = true) :
  2048 <= score.
Proof.
  destruct (valid_direction_key _ Hdir) as (vertical & fwd & ->).
  rewrite push_blocks_lines in Hpush by assumption.
  injection Hpush as Ht' Hscore _.
  change (fun l => packed fwd (merged fwd l)) with (pushed fwd) in Ht'.
  assert (Hwf' : wf_table t')
    by (subst t'; apply wf_on_lines; auto using pushed_length).
  apply (has_won_lines vertical t' Hwf') in Hafter as (k & Hk & Hin).
  rewrite <- Ht', line_on_lines in Hin by auto using pushed_length.
  pose proof (line_length vertical k t Hwf Hk) as Hl.
  pose proof (line_in_lines vertical k t Hwf Hk) as Hline.
  pose proof (nonneg_lines vertical t Hwf Hnonneg) as Hpos.
  unfold pushed in Hin.
  rewrite packed_pack in Hin by auto using merged_length.
  apply in_pack in Hin as [Hin|Hin]; [discriminate|].
  assert (Hnot : ~ In 2048 (line vertical k t)).
  { intros H. assert (Hw : has_won t = true)
      by (apply (has_won_lines vertical t Hwf); eauto).
    congruence. }
  assert (Hg : 2048 <= gain fwd (line vertical k t)).
  { apply merge_creates; auto; [|lia].
    rewrite Forall_forall in Hpos. now apply Hpos. }
  pose proof (wf_lines_of vertical t Hwf) as [_ Hlen].
  pose proof (gain_le_total fwd _ _ Hlen Hpos Hline). lia.
Qed.

Lemma winning_push_scores_witness :
  has_won almost_won_table = false
  /\ push_blocks almost_won_table "A"
     = Ok ([[2048; 0; 0; 0]; [2; 4; 0; 0]; [0; 0; 0; 0]; [0; 0; 0; 0]],
           (2048, false))
  /\ 2048 <= 2048.
Proof.
  split; [reflexivity|]. split; [reflexivity|].
  apply (winning_push_scores almost_won_table
           [[2048; 0; 0; 0]; [2; 4; 0; 0]; [0; 0; 0; 0]; [0; 0; 0; 0]]
           "A" 2048 false).
  - apply wf_tableb_sound; reflexivity.
  - unfold nonneg_table, almost_won_table; repeat constructor; lia.
  - unfold valid_direction; simpl; tauto.
  - reflexivity.
  - reflexivity.
  - reflexivity.
Defined.

(** ** The four directions are one push, mirrored and transposed *)

Lemma mirror_length (t : table) : wf_table t -> wf_table (mirror t).
Proof.
  intros Hwf. apply wf_map; [|assumption].
  intros l Hl. now rewrite length_rev.
Qed.

Lemma pushed_mirror (ls : table) :
  Forall (fun l => List.length l = 4%nat) ls ->
  map (pushed false) (mirror ls) = mirror (map (pushed true) ls)
  /\ lsum (map (gain false) (mirror ls)) = lsum (map (gain true) ls)
  /\ existsb (slid false) (map (merged false) (mirror ls))
     = existsb (slid true) (map (merged true) ls).
Proof.
  induction 1 as [|l ls Hl _ (IH1 & IH2 & IH3)];
    [repeat split; reflexivity|].
  destruct (mirror_line l Hl) as (Em & Eg & _ & _).
  destruct (mirror_line (merged true l) (merged_length true l Hl))
    as (_ & _ & Ep & Es).
  unfold mirror in *. cbn [map lsum fold_right existsb].
  unfold pushed in *. unfold lsum in *.
  rewrite Em, Eg, Ep, Es, IH1, IH2, IH3. repeat split; reflexivity.
Qed.

(** X6.  The four directions are one algorithm: on a 4x4 grid, when a
    push to the left of [t] gives the grid [t'] and an outcome, the push to
    the right of the mirrored grid gives the mirror of [t'], the push up of
    the transposed grid gives the transpose of [t'], and the push down of
    the transposed mirrored grid gives the transposed mirror of [t'], each
    with the same score and flag. *)
Theorem push_blocks_symmetry (t t' : table) (outcome : Z * bool)
  (Hwf : wf_table t) (Hleft : push_blocks t "A" = Ok (t', outcome)) :
  push_blocks (mirror t) "D" = Ok (mirror t', outcome)
  /\ push_blocks (transpose t) "W" = Ok (transpose t', outcome)
  /\ push_blocks (transpose (mirror t)) "S"
     = Ok (transpose (mirror t'), outcome).
Proof.
  pose proof (mirror_length t Hwf) as Hwm.
  change "A" with (key false true) in Hleft.
  rewrite push_blocks_lines in Hleft by assumption.
  injection Hleft as Ht' Hout. subst t' outcome.
  change (fun l => packed true (merged true l)) with (pushed true).
  destruct Hwf as [Hlen Hrows].
  destruct (pushed_mirror t Hrows) as (E1 & E2 & E3).
  assert (Hwf : wf_table t) by (split; assumption).
  change "D" with (key false false). change "W" with (key true true).
  change "S" with (key true false).
  rewrite !push_blocks_lines by auto using wf_transpose.
  change (fun l => packed true (merged true l)) with (pushed true).
  change (fun l => packed false (merged false l)) with (pushed false).
  unfold on_lines, lines.
  rewrite !transpose_involutive by assumption.
  rewrite E1, E2, E3. repeat split; reflexivity.
Qed.

Lemma push_blocks_symmetry_witness :
  push_blocks (mirror sample_table) "D"
  = Ok (mirror [[4; 4; 8; 0]; [8; 0; 0; 0]; [32; 0; 0; 0]; [2; 4; 8; 16]],
        (44, true))
  /\ push_blocks (transpose sample_table) "W"
     = Ok (transpose [[4; 4; 8; 0]; [8; 0; 0; 0]; [32; 0; 0; 0];
                      [2; 4; 8; 16]], (44, true))
  /\ push_blocks (transpose (mirror sample_table)) "S"
     = Ok (transpose (mirror [[4; 4; 8; 0]; [8; 0; 0; 0]; [32; 0; 0; 0];
                              [2; 4; 8; 16]]), (44, true)).
Proof.
  apply (push_blocks_symmetry sample_table).
  - apply wf_tableb_sound; reflexivity.
  - reflexivity.
Defined.

(** ** [_get_empty_indexes] as a filter of the positions *)

Lemma flat_map_filter {A B C : Type} (p : A -> B -> bool)
  (f : A -> B -> C) (q : C -> bool) (rs : list A) (cs : list B) :
  (forall a b, q (f a b) = p a b) ->
  flat_map (fun r => flat_map (fun c => if p r c then [f r c] else []) cs) rs
  = filter q (flat_map (fun r => map (f r) cs) rs).
Proof.
  intros Hq. induction rs as [|r rs IH]; simpl; [reflexivity|].
  rewrite filter_app, IH. f_equal.
  clear IH. induction cs as [|c cs IH]; simpl; [reflexivity|].
  rewrite Hq. destruct (p r c); simpl; now rewrite IH.
Qed.

Lemma empty_cells_filter (t : table) :
  empty_cells t = filter (empty_at t) all_positions.
Proof. apply flat_map_filter. reflexivity. Qed.

Lemma all_positions_nodup : NoDup all_positions.
Proof.
  unfold all_positions; cbn [flat_map map app].
  repeat (constructor; [simpl; intuition congruence|]). constructor.
Qed.

Lemma in_all_positions (p : Z * Z) :
  In p all_positions
  <-> exists r c : nat,
        (r < 4)%nat /\ (c < 4)%nat /\ p = (Z.of_nat r, Z.of_nat c).
Proof.
  unfold all_positions. rewrite in_flat_map. split.
  - intros (r & Hr & H). apply in_map_iff in H as (c & <- & Hc).
    apply in_range4 in Hr as (n & Hn & ->).
    apply in_range4 in Hc as (m & Hm & ->). eauto.
  - intros (r & c & Hr & Hc & ->). exists (Z.of_nat r). split.
    + apply in_range4; eauto.
    + apply in_map. apply in_range4; eauto.
Qed.

(** X7.  On a 4x4 grid [_get_empty_indexes] returns the positions (row,
    column) of the cells that hold 0, each once, in row-major order: the
    list of the sixteen positions filtered by emptiness. *)
Theorem get_empty_indexes_spec (t : table) (Hwf : wf_table t) :
  exists indexes,
    _get_empty_indexes t = Ok indexes
    /\ indexes = filter (empty_at t) all_positions
    /\ NoDup indexes
    /\ (forall r c : nat,
          In (Z.of_nat r, Z.of_nat c) indexes
          <-> (r < 4)%nat /\ (c < 4)%nat /\ cell t r c = 0).
Proof.
  exists (empty_cells t). split; [now apply get_empty_indexes_ok|].
  split; [apply empty_cells_filter|]. split.
  - rewrite empty_cells_filter. apply NoDup_filter, all_positions_nodup.
  - intros r c. rewrite in_empty_cells, cellz_of_nat, !in_range4. split.
    + intros ((n & Hn & En) & (m & Hm & Em) & E).
      apply Nat2Z.inj in En, Em. subst. auto.
    + intros (Hr & Hc & E). eauto 8.
Qed.

Lemma get_empty_indexes_spec_witness :
  exists indexes,
    _get_empty_indexes sample_table = Ok indexes
    /\ indexes = [(1, 0); (1, 2); (2, 1); (2, 2)]
    /\ NoDup indexes
    /\ (forall r c : nat,
          In (Z.of_nat r, Z.of_nat c) indexes
          <-> (r < 4)%nat /\ (c < 4)%nat /\ cell sample_table r c = 0).
Proof.
  apply (get_empty_indexes_spec sample_table).
  apply wf_tableb_sound; reflexivity.
Defined.

(** ** [insert_block] fills one empty cell *)

Lemma filter_one_less {A : Type} (p q : A -> bool) (x : A) (l : list A) :
  NoDup l -> In x l -> p x = true -> q x = false ->
  (forall y, In y l -> y <> x -> q y = p y) ->
  List.length (filter p l) = S (List.length (filter q l)).
Proof.
  induction 1 as [|y l Hy Hnd IH]; intros Hin Hp Hq Hsame; [contradiction|].
  simpl. destruct Hin as [->|Hin].
  - rewrite Hp, Hq. simpl. f_equal. f_equal.
    apply filter_ext_in. intros z Hz. symmetry. apply Hsame; [now right|].
    intros ->. contradiction.
  - assert (Hyx : y <> x) by (intros ->; contradiction).
    rewrite (Hsame y (or_introl eq_refl) Hyx).
    assert (E : List.length (filter p l) = S (List.length (filter q l))).
    { apply IH; auto. intros z Hz. apply Hsame. now right. }
    destruct (p y); simpl; now rewrite E.
Qed.

Lemma insert_block_room (t : table) (draw_cell draw_value : nat) :
  wf_table t ->
  (exists r c, (r < 4)%nat /\ (c < 4)%nat /\ cell t r c = 0) ->
  exists t' r c,
    insert_block draw_cell draw_value t = Ok t'
    /\ wf_table t'
    /\ (r < 4)%nat /\ (c < 4)%nat /\ cell t r c = 0
    /\ (cell t' r c = 2 \/ cell t' r c = 4)
    /\ (forall r' c', (r', c') <> (r, c) -> cell t' r' c' = cell t r' c')
    /\ List.length (empty_cells t) = S (List.length (empty_cells t')).
Proof.
  intros Hwf Hroom.
  destruct (insert_block_cases draw_cell draw_value t Hwf)
    as [[E _]|(rz & cz & v & Hin & Hval & ->)].
  - exfalso. destruct Hroom as (r & c & Hr & Hc & H0).
    assert (H : In (Z.of_nat r, Z.of_nat c) (empty_cells t)).
    { apply in_empty_cells. rewrite cellz_of_nat, !in_range4. eauto 8. }
    rewrite E in H. contradiction.
  - pose proof Hin as Hin'.
    apply in_empty_cells in Hin as (Hr & Hc & E).
    destruct (set_cell_ok t rz cz v Hwf Hr Hc)
      as (t' & -> & Hwf' & Hv & Hother & _).
    apply in_range4 in Hr as (r & Hr & ->).
    apply in_range4 in Hc as (c & Hc & ->).
    rewrite cellz_of_nat in E, Hv. rewrite !Nat2Z.id in Hother.
    exists t', r, c.
    split; [reflexivity|]. split; [assumption|].
    do 3 (split; [assumption|]).
    split; [rewrite Hv; exact Hval|]. split; [exact Hother|].
    rewrite !empty_cells_filter.
    apply filter_one_less with (x := (Z.of_nat r, Z.of_nat c)).
    + apply all_positions_nodup.
    + apply in_all_positions; eauto.
    + unfold empty_at; simpl. rewrite cellz_of_nat. now apply Z.eqb_eq.
    + unfold empty_at; simpl. rewrite cellz_of_nat, Hv.
      destruct Hval as [->| ->]; reflexivity.
    + intros p Hp Hne.
      apply in_all_positions in Hp as (r' & c' & Hr' & Hc' & ->).
      unfold empty_at; simpl. rewrite !cellz_of_nat, Hother; [reflexivity|].
      intros H; injection H as -> ->. now elim Hne.
Qed.

(** X8.  On a 4x4 grid with an empty cell [insert_block] returns, for
    every pair of random draws, a grid that differs in one cell only: a
    cell that was empty and now holds 2 or 4.  So the list returned by
    [_get_empty_indexes] is one shorter afterwards. *)
Theorem insert_block_fills_one_empty_cell (t : table)
  (draw_cell draw_value : nat) (Hwf : wf_table t)
  (Hroom : exists r c, (r < 4)%nat /\ (c < 4)%nat /\ cell t r c = 0) :
  exists t' r c before after,
    insert_block draw_cell draw_value t = Ok t'
    /\ wf_table t'
    /\ (r < 4)%nat /\ (c < 4)%nat /\ cell t r c = 0
    /\ (cell t' r c = 2 \/ cell t' r c = 4)
    /\ (forall r' c', (r', c') <> (r, c) -> cell t' r' c' = cell t r' c')
    /\ _get_empty_indexes t = Ok before
    /\ _get_empty_indexes t' = Ok after
    /\ List.length before = S (List.length after).
Proof.
  destruct (insert_block_room t draw_cell draw_value Hwf Hroom)
    as (t' & r & c & Hins & Hwf' & Hr & Hc & H0 & Hv & Hother & Hlen).
  exists t', r, c, (empty_cells t), (empty_cells t').
  repeat (split; [assumption|]).
  split; [now apply get_empty_indexes_ok|].
  split; [now apply get_empty_indexes_ok|]. exact Hlen.
Qed.

Lemma insert_block_fills_one_empty_cell_witness :
  exists t' r c before after,
    insert_block 9 4 sample_table = Ok t'
    /\ wf_table t'
    /\ (r < 4)%nat /\ (c < 4)%nat /\ cell sample_table r c = 0
    /\ (cell t' r c = 2 \/ cell t' r c = 4)
    /\ (forall r' c', (r', c') <> (r, c) ->
                      cell t' r' c' = cell sample_table r' c')
    /\ _get_empty_indexes sample_table = Ok before
    /\ _get_empty_indexes t' = Ok after
    /\ List.length before = S (List.length after).
Proof.
  apply (insert_block_fills_one_empty_cell sample_table 9 4).
  - apply wf_tableb_sound; reflexivity.
  - exists 1%nat, 0%nat. repeat split; lia.
Defined.

(** ** The exceptions of [push_blocks] *)

Lemma str_in_spec (x : string) (xs : list string) :
  str_in x xs = true <-> In x xs.
Proof.
  unfold str_in. rewrite existsb_exists. split.
  - intros (y & Hy & E). apply String.eqb_eq in E. now subst.
  - intros H. exists x. split; [assumption|apply String.eqb_refl].
Qed.

(** X9.  On a 4x4 grid [push_blocks] raises exactly when the direction is
    not one of "W", "A", "S", "D" (the lower-case keys of the phases are
    refused too), and the exception is then the [AssertionError] of its
    first line; it never raises [IndexError]. *)
Theorem push_blocks_raises_iff (t : table) (direction : string)
  (Hwf : wf_table t) :
  (valid_direction direction ->
   exists t' outcome, push_blocks t direction = Ok (t', outcome))
  /\ (~ valid_direction direction ->
      push_blocks t direction = Raise AssertionError)
  /\ push_blocks t "a" = Raise AssertionError.
Proof.
  split; [|split; [|reflexivity]].
  - intros Hdir.
    destruct (valid_direction_key _ Hdir) as (vertical & fwd & ->).
    rewrite push_blocks_lines by assumption. eauto.
  - intros Hdir. unfold push_blocks.
    destruct (str_in direction ["W"; "A"; "S"; "D"]) eqn:E; [|reflexivity].
    apply str_in_spec in E. contradiction.
Qed.

Lemma push_blocks_raises_iff_witness :
  (valid_direction "x" ->
   exists t' outcome, push_blocks sample_table "x" = Ok (t', outcome))
  /\ (~ valid_direction "x" ->
      push_blocks sample_table "x" = Raise AssertionError)
  /\ push_blocks sample_table "a" = Raise AssertionError.
Proof.
  apply (push_blocks_raises_iff sample_table "x").
  apply wf_tableb_sound; reflexivity.
Defined.

(** * The match of [game.py] *)

(** ** The last screen of a match *)

(** X10.  [end_of_match] shows the same screen (the win or the defeat, with
    the grid and the status it was given) once, and once more for every
    input that is neither "R" nor "Q"; at the first "R" or "Q" it returns
    the status it was given, with the flag true for "R" and false for
    "Q".  It shows nothing else and never changes the status. *)
Theorem end_of_match_spec (inputs : list string) (t : table) (s : status)
  (c : config) (won : bool) (screen : list ui_call) :
  exists k : nat,
    (k <= List.length inputs)%nat
    /\ (forall i, (i < k)%nat -> leaves (nth i inputs "") = false)
    /\ snd (end_of_match inputs t s c won screen)
       = screen
         ++ repeat (if won then PrintWin t s c else PrintLose t s c) (S k)
    /\ match fst (end_of_match inputs t s c won screen) with
       | Some r =>
           (k < List.length inputs)%nat
           /\ exists restart : bool,
                r = (s, restart)
                /\ nth k inputs "" = (if restart then "R" else "Q")
       | None => k = List.length inputs
       end.
Proof.
  revert screen.
  induction inputs as [|x rest IH]; intros screen;
    destruct s as [[player score] moves].
  - exists 0%nat. cbn [end_of_match fst snd repeat List.length].
    split; [lia|]. split; [intros; lia|]. split; reflexivity.
  - cbn [end_of_match].
    destruct (String.eqb_spec x "R") as [->|HR];
      [|destruct (String.eqb_spec x "Q") as [->|HQ]].
    + exists 0%nat. cbn [fst snd repeat nth List.length].
      split; [lia|]. split; [intros; lia|]. split; [reflexivity|].
      split; [lia|]. now exists true.
    + exists 0%nat. cbn [fst snd repeat nth List.length].
      split; [lia|]. split; [intros; lia|]. split; [reflexivity|].
      split; [lia|]. now exists false.
    + destruct (IH (screen ++ [if won then PrintWin t (player, score, moves) c
                               else PrintLose t (player, score, moves) c]))
        as (k & Hk & Hnot & Hscreen & Hres).
      exists (S k). cbn [List.length nth].
      split; [lia|]. split; [|split].
      * intros [|i] Hi.
        -- unfold leaves.
           apply String.eqb_neq in HR, HQ. now rewrite HR, HQ.
        -- apply Hnot. lia.
      * rewrite Hscreen, <- app_assoc. reflexivity.
      * destruct (fst (end_of_match rest t (player, score, moves) c won _));
          [|lia].
        destruct Hres as [Hlt Hr]. split; [lia | exact Hr].
Qed.

Lemma end_of_match_shows (inputs : list string) (t : table) (s : status)
  (c : config) (won : bool) (screen : list ui_call) :
  exists (k : nat) (res : option match_result),
    end_of_match inputs t s c won screen
    = (res,
       screen
       ++ repeat (if won then PrintWin t s c else PrintLose t s c) (S k))
    /\ match res with
       | Some r =>
           (k < List.length inputs)%nat
           /\ exists restart : bool, r = (s, restart)
       | None => k = List.length inputs
       end.
Proof.
  revert screen.
  induction inputs as [|x rest IH]; intros screen;
    destruct s as [[player score] moves].
  - exists 0%nat, None. now cbn [end_of_match repeat].
  - cbn [end_of_match List.length].
    destruct (String.eqb x "R");
      [|destruct (String.eqb x "Q")].
    + exists 0%nat, (Some (player, score, moves, true)).
      split; [reflexivity|]. split; [lia | now exists true].
    + exists 0%nat, (Some (player, score, moves, false)).
      split; [reflexivity|]. split; [lia | now exists false].
    + destruct (IH (screen ++ [if won then PrintWin t (player, score, moves) c
                               else PrintLose t (player, score, moves) c]))
        as (k & res & -> & Hres).
      exists (S k), res. split; [rewrite <- app_assoc; reflexivity|].
      destruct res as [r|]; [|lia].
      destruct Hres as [Hk Hr]. split; [lia | exact Hr].
Qed.

(** ** The grid invariant along a turn *)

Lemma valid_cell_nonneg (x : Z) : valid_cell x -> 0 <= x.
Proof. intros [->|(k & _ & ->)]; [lia | apply Z.pow_nonneg; lia]. Qed.

Lemma valid_cell_even (x : Z) : valid_cell x -> (2 | x).
Proof.
  intros [->|(k & Hk & ->)]; [apply Z.divide_0_r|].
  exists (2 ^ Z.of_nat (k - 1)).
  replace (Z.of_nat k) with (Z.succ (Z.of_nat (k - 1))) at 1 by lia.
  rewrite Z.pow_succ_r by lia. lia.
Qed.

Lemma grid_invariant_nonneg (t : table) : grid_invariant t -> nonneg_table t.
Proof.
  intros [_ Hv]. unfold nonneg_table.
  eapply Forall_impl; [|exact Hv].
  intros l Hl. eapply Forall_impl; [|exact Hl].
  apply valid_cell_nonneg.
Qed.

Lemma line_vanished_even (l l' : list Z) :
  Forall (fun x => (2 | x)) l -> (2 | line_vanished l l').
Proof.
  unfold line_vanished. intros H; revert l'.
  induction H as [|x l Hx _ IH]; intros [|x' l'];
    cbn [combine map lsum fold_right fst snd]; try apply Z.divide_0_r.
  apply Z.divide_add_r; [|apply IH].
  unfold vanished. destruct (_ && _); [exact Hx | apply Z.divide_0_r].
Qed.

Lemma gain_divide (fwd : bool) (l : list Z) :
  List.length l = 4%nat -> Forall valid_cell l -> (4 | gain fwd l).
Proof.
  intros Hl Hv. rewrite gain_vanished by assumption.
  destruct (line_vanished_even l (merged fwd l)) as [k ->].
  - eapply Forall_impl; [|exact Hv]. apply valid_cell_even.
  - exists k. lia.
Qed.

Lemma lsum_gain_divide (fwd : bool) (ls : table) :
  Forall (fun l => List.length l = 4%nat) ls ->
  Forall (Forall valid_cell) ls ->
  (4 | lsum (map (gain fwd) ls)).
Proof.
  induction 1 as [|l ls Hl _ IH]; intros HP; cbn [map lsum fold_right];
    [apply Z.divide_0_r|].
  inversion HP; subst.
  apply Z.divide_add_r; [now apply gain_divide | now apply IH].
Qed.

Lemma pushed_valid (fwd : bool) (l : list Z) :
  List.length l = 4%nat -> Forall valid_cell l ->
  Forall valid_cell (pushed fwd l).
Proof.
  intros Hl HP. apply packed_forall; [auto using merged_length|].
  apply merged_forall; auto using valid_cell_double, valid_cell_zero.
Qed.

(** What a turn of the match gets from [push_blocks]. *)
Lemma push_blocks_turn (t : table) (direction : string) :
  grid_invariant t -> valid_direction direction ->
  exists t' score changed,
    push_blocks t direction = Ok (t', (score, changed))
    /\ grid_invariant t'
    /\ 0 <= score /\ (4 | score)
    /\ (t' = t <-> score = 0 /\ changed = false)
    /\ (changed = true \/ score <> 0 -> has_empty t' = true).
Proof.
  intros Hinv Hdir.
  pose proof (grid_invariant_nonneg t Hinv) as Hnn.
  destruct Hinv as [Hwf Hv].
  destruct (valid_direction_key _ Hdir) as (vertical & fwd & ->).
  rewrite push_blocks_lines by assumption.
  change (fun l => packed fwd (merged fwd l)) with (pushed fwd).
  do 3 eexists; split; [reflexivity|].
  pose proof (wf_lines_of vertical t Hwf) as [_ Hlen].
  split; [|split; [|split; [|split]]].
  - split.
    + apply wf_on_lines; auto using pushed_length.
    + apply forall_on_lines; auto using pushed_length, pushed_valid.
  - apply lsum_gain_nonneg; [assumption | now apply nonneg_lines].
  - apply lsum_gain_divide; [assumption|].
    destruct vertical; [now apply forall_transpose | exact Hv].
  - now apply on_lines_pushed_fixed.
  - intros H. apply has_empty_spec.
    apply on_lines_pushed_room; [assumption|]. tauto.
Qed.

(** What the match gets from [insert_block]. *)
Lemma insert_block_invariant (t : table) (draw_cell draw_value : nat) :
  grid_invariant t ->
  exists t',
    insert_block draw_cell draw_value t = Ok t' /\ grid_invariant t'.
Proof.
  intros [Hwf Hv].
  destruct (insert_block_cases draw_cell draw_value t Hwf)
    as [[_ ->]|(r & c & v & Hin & Hval & ->)].
  - exists t; split; [reflexivity|]. now split.
  - apply in_empty_cells in Hin as (Hr & Hc & _).
    destruct (set_cell_ok t r c v Hwf Hr Hc)
      as (t' & -> & Hwf' & _ & _ & HP).
    exists t'; split; [reflexivity|]. split; [assumption|].
    apply HP; [|assumption].
    destruct Hval as [->| ->]; right;
      [exists 1%nat|exists 2%nat]; split; (lia || reflexivity).
Qed.

(** ** The grid a match starts from *)

Lemma forall_cells (P : Z -> Prop) (t : table) :
  wf_table t ->
  (forall r c, (r < 4)%nat -> (c < 4)%nat -> P (cell t r c)) ->
  Forall (Forall P) t.
Proof.
  intros [Hlen Hrows] H. rewrite Forall_forall in Hrows.
  apply Forall_forall; intros rw Hrw.
  pose proof (Hrows rw Hrw) as Hl.
  apply (In_nth _ _ []) in Hrw as (r & Hr & <-).
  apply Forall_forall; intros x Hx.
  apply (In_nth _ _ 0) in Hx as (c & Hc & <-).
  apply H; lia.
Qed.

(** X11.  Whatever the random draws, the two calls of [insert_block] that
    open [game_match] return, and the match starts from a grid that
    satisfies the grid invariant and has fourteen empty cells: two tiles,
    each a 2 or a 4, never one tile only (the second block cannot fall on
    the first). *)
Theorem game_setup_two_tiles (draws : nat -> nat * nat) :
  exists t indexes,
    game_setup draws = Ok t
    /\ grid_invariant t
    /\ _get_empty_indexes t = Ok indexes
    /\ List.length indexes = 14%nat
    /\ forall r c, cell t r c = 0 \/ cell t r c = 2 \/ cell t r c = 4.
Proof.
  unfold game_setup. change (range 0 2 1) with [0; 1].
  cbn [for_each].
  assert (Hwf0 : wf_table new_table) by (apply wf_tableb_sound; reflexivity).
  assert (Hcells0 : forall r c, cell new_table r c = 0).
  { intros r c.
    do 4 (destruct r as [|r];
          [do 4 (destruct c as [|c]; [reflexivity|]); destruct c; reflexivity
          |]).
    destruct r; destruct c; reflexivity. }
  destruct (insert_block_room new_table
              (fst (draws (Z.to_nat 0))) (snd (draws (Z.to_nat 0))) Hwf0)
    as (t1 & r1 & c1 & -> & Hwf1 & Hr1 & Hc1 & _ & Hv1 & Ho1 & Hlen1).
  { exists 0%nat, 0%nat. repeat split; lia. }
  cbn [bind].
  assert (Hcells1 :
            forall r c, cell t1 r c = 0 \/ cell t1 r c = 2 \/ cell t1 r c = 4).
  { intros r c.
    destruct (Nat.eq_dec r r1) as [->|Hr];
      [destruct (Nat.eq_dec c c1) as [->|Hc]|].
    - tauto.
    - left. rewrite Ho1 by congruence. apply Hcells0.
    - left. rewrite Ho1 by congruence. apply Hcells0. }
  assert (Hroom1 : exists r c, (r < 4)%nat /\ (c < 4)%nat /\ cell t1 r c = 0).
  { destruct (Nat.eq_dec r1 0) as [->|Hr].
    - exists 1%nat, 0%nat. repeat split; try lia.
      rewrite Ho1 by congruence. reflexivity.
    - exists 0%nat, 0%nat. repeat split; try lia.
      rewrite Ho1 by congruence. reflexivity. }
  destruct (insert_block_room t1
              (fst (draws (Z.to_nat 1))) (snd (draws (Z.to_nat 1)))
              Hwf1 Hroom1)
    as (t2 & r2 & c2 & -> & Hwf2 & Hr2 & Hc2 & _ & Hv2 & Ho2 & Hlen2).
  exists t2, (empty_cells t2).
  assert (Hcells2 :
            forall r c, cell t2 r c = 0 \/ cell t2 r c = 2 \/ cell t2 r c = 4).
  { intros r c.
    destruct (Nat.eq_dec r r2) as [->|Hr];
      [destruct (Nat.eq_dec c c2) as [->|Hc]|].
    - tauto.
    - rewrite Ho2 by congruence. apply Hcells1.
    - rewrite Ho2 by congruence. apply Hcells1. }
  split; [reflexivity|]. split; [|split; [|split]].
  - split; [assumption|].
    apply forall_cells; [assumption|]. intros r c _ _.
    destruct (Hcells2 r c) as [->|[->| ->]];
      [ now left
      | right; exists 1%nat; split; [lia | reflexivity]
      | right; exists 2%nat; split; [lia | reflexivity] ].
  - now apply get_empty_indexes_ok.
  - change (List.length (empty_cells new_table)) with 16%nat in Hlen1. lia.
  - exact Hcells2.
Qed.

(** ** The screens of a match *)

Lemma lose_repeats_snoc (l : list ui_call) (u : ui_call) :
  lose_repeats l ->
  (forall front v, l = front ++ [v] -> is_lose u = true ->
     shown_table u = shown_table v /\ shown_status u = shown_status v) ->
  lose_repeats (l ++ [u]).
Proof.
  induction l as [|a l IH]; intros Hl H; [exact I|].
  destruct l as [|b l'].
  - split; [|exact I]. now apply (H [] a).
  - destruct Hl as [Hab Hl].
    change (lose_repeats (a :: b :: (l' ++ [u]))).
    split; [exact Hab|].
    apply IH; [exact Hl|].
    intros front v E. apply (H (a :: front) v). now rewrite E.
Qed.

Lemma lose_repeats_other (l : list ui_call) (u : ui_call) :
  lose_repeats l -> is_lose u = false -> lose_repeats (l ++ [u]).
Proof.
  intros Hl Hu. apply lose_repeats_snoc; [assumption|]. congruence.
Qed.

Lemma snoc_repeat {A : Type} (l : list A) (u : A) (k : nat) :
  l ++ repeat u (S k) = (l ++ repeat u k) ++ [u].
Proof.
  rewrite <- app_assoc. f_equal. cbn [repeat]. apply repeat_cons.
Qed.

Lemma lose_repeats_again (l : list ui_call) (u : ui_call) (k : nat) :
  lose_repeats (l ++ [u]) -> lose_repeats (l ++ repeat u (S k)).
Proof.
  intros H. induction k as [|k IH]; [exact H|].
  rewrite snoc_repeat. apply lose_repeats_snoc; [exact IH|].
  intros front v E _. rewrite snoc_repeat in E.
  apply app_inj_tail in E as [_ <-]. now split.
Qed.

Lemma forall_screens (P : ui_call -> Prop) (l : list ui_call) (u : ui_call)
  (k : nat) :
  Forall P l -> P u -> Forall P (l ++ repeat u k).
Proof.
  intros Hl Hu. apply Forall_app; split; [assumption|].
  apply Forall_forall. intros x Hx. apply repeat_spec in Hx. now subst.
Qed.

(** The results and the screens of the last screen of a match. *)
Lemma end_of_match_sound (inputs : list string) (t : table)
  (player : string) (score moves moves0 : Z) (shown0 : nat) (c : config)
  (won : bool) (screen : list ui_call) :
  let u := if won then PrintWin t (player, score, moves) c
           else PrintLose t (player, score, moves) c in
  Forall sound_screen screen -> sound_screen u ->
  lose_repeats (screen ++ [u]) ->
  moves0 <= moves ->
  moves + Z.of_nat shown0 <= moves0 + Z.of_nat (List.length screen) ->
  exists res screen',
    end_of_match inputs t (player, score, moves) c won screen
    = (res, screen')
    /\ Forall sound_screen screen'
    /\ lose_repeats screen'
    /\ loop_result player moves0 shown0
         (List.length screen - shown0 + List.length inputs) screen' res
    /\ exists tail, screen' = screen ++ tail.
Proof.
  intros u Hs Hu Hl Hm Hshown.
  destruct (end_of_match_shows inputs t (player, score, moves) c won screen)
    as (k & res & E & Hres).
  fold u in E. exists res, (screen ++ repeat u (S k)).
  split; [exact E|]. split; [now apply forall_screens|].
  split; [now apply lose_repeats_again|]. split; [|eauto].
  assert (Hlen : List.length (screen ++ repeat u (S k))
                 = (List.length screen + S k)%nat)
    by now rewrite length_app, repeat_length.
  destruct res as [[[[p s] mv] b]|]; cbn [loop_result]; [|lia].
  destruct Hres as (Hk & restart & Hr). injection Hr as -> -> -> ->.
  destruct Hu as (_ & Hstat & _).
  assert (Hstat' : 0 <= score /\ (4 | score) /\ 0 <= moves)
    by (unfold u in Hstat; destruct won; exact Hstat).
  split; [reflexivity|]. split; [tauto|]. split; [tauto|].
  split; [lia|]. split; [lia|]. split; [lia|].
  exists (screen ++ repeat u k), u.
  split; [apply snoc_repeat|]. unfold u; now destruct won.
Qed.

Lemma match_loop_sound (inputs : list string) :
  forall (draws : nat -> nat * nat) (n : nat) (c : config) (player : string)
         (t : table) (score moves : Z) (screen : list ui_call),
    grid_invariant t -> 0 <= score -> (4 | score) -> 0 <= moves ->
    Forall sound_screen screen -> lose_repeats screen ->
    exists res screen',
      match_loop inputs draws n c player t score moves screen
      = Ok (res, screen')
      /\ Forall sound_screen screen'
      /\ lose_repeats screen'
      /\ loop_result player moves (List.length screen)
           (List.length inputs) screen' res
      /\ exists tail,
           screen' = screen ++ PrintTable t (player, score, moves) c :: tail.
Proof.
  induction inputs as [|x rest IH];
    intros draws n c player t score moves screen
           Hinv Hscore Hdiv Hmoves Hsound Hlose;
    cbn [match_loop];
    set (screen1 := screen ++ [PrintTable t (player, score, moves) c]);
    assert (Hsound1 : Forall sound_screen screen1)
      by (apply Forall_app; split; [assumption|];
          constructor; [|constructor];
          split; [assumption|]; split; [cbn; auto | exact I]);
    assert (Hlose1 : lose_repeats screen1)
      by (now apply lose_repeats_other);
    assert (Hlen1 : List.length screen1 = S (List.length screen))
      by (unfold screen1; rewrite length_app; cbn [List.length]; lia);
    assert (Hlast1 : exists front u,
               screen1 = front ++ [u]
               /\ shown_status u = (player, score, moves))
      by (now exists screen, (PrintTable t (player, score, moves) c)).
  - exists None, screen1. split; [reflexivity|].
    split; [assumption|]. split; [assumption|].
    split; [cbn [loop_result List.length]; lia | now exists []].
  - cbn [List.length].
    destruct (String.eqb x "R"); [|destruct (String.eqb x "Q")].
    + exists (Some (player, score, moves, true)), screen1.
      split; [reflexivity|]. split; [assumption|]. split; [assumption|].
      split; [|now exists []].
      cbn [loop_result]. repeat (split; [assumption || reflexivity || lia|]). assumption.
    + exists (Some (player, score, moves, false)), screen1.
      split; [reflexivity|]. split; [assumption|]. split; [assumption|].
      split; [|now exists []].
      cbn [loop_result]. repeat (split; [assumption || reflexivity || lia|]). assumption.
    + destruct (str_in x ["W"; "A"; "S"; "D"]) eqn:Hkey.
      * apply str_in_spec in Hkey.
        destruct (push_blocks_turn t x Hinv Hkey)
          as (t1 & ts & tm & -> & Hinv1 & Hts0 & Hts4 & Hsame & Hroom).
        cbn [bind].
        assert (Hscore1 : 0 <= score + ts) by lia.
        assert (Hdiv1 : (4 | score + ts)) by now apply Z.divide_add_r.
        assert (Hmoves1 : moves <= moves + (if tm then 1 else 0) <= moves + 1)
          by (destruct tm; lia).
        destruct (has_won t1) eqn:Hwon.
        -- destruct (end_of_match_sound rest t1 player (score + ts)
                       (moves + (if tm then 1 else 0)) moves
                       (List.length screen) c true screen1)
             as (res & screen' & -> & Hs' & Hl' & Hr' & tail & ->);
             try assumption; try lia.
           ++ split; [exact Hinv1|]. split; [|exact Hwon].
              cbn [shown_status]. split; [lia|]. split; [assumption|lia].
           ++ now apply lose_repeats_other.
           ++ exists res, (screen1 ++ tail).
              split; [reflexivity|]. split; [assumption|].
              split; [assumption|]. split.
              ** replace (S (List.length rest))
                   with (List.length screen1 - List.length screen
                         + List.length rest)%nat by lia.
                 exact Hr'.
              ** unfold screen1. rewrite <- app_assoc.
                 exists tail; reflexivity.
        -- rewrite can_move_ok by apply Hinv1. cbn [bind].
           destruct (has_empty t1 || has_equal_in_row t1
                     || has_equal_in_col t1) eqn:Hmovable; cbn [negb].
           ++ assert (Hnext :
                        forall n' t2, grid_invariant t2 ->
                          exists res screen',
                            match_loop rest draws n' c player t2 (score + ts)
                              (moves + (if tm then 1 else 0)) screen1
                            = Ok (res, screen')
                            /\ Forall sound_screen screen'
                            /\ lose_repeats screen'
                            /\ loop_result player moves (List.length screen)
                                 (S (List.length rest)) screen' res
                            /\ exists tail,
                                 screen'
                                 = screen
                                   ++ PrintTable t (player, score, moves) c
                                   :: tail).
              { intros n' t2 Hinv2.
                destruct (IH draws n' c player t2 (score + ts)
                            (moves + (if tm then 1 else 0)) screen1)
                  as (res & screen' & E & Hs' & Hl' & Hr' & tail & ->);
                  try assumption; try lia.
                do 2 eexists; split; [exact E|].
                split; [assumption|]. split; [assumption|]. split.
                - destruct res as [[[[p s] mv] b]|]; cbn [loop_result] in *.
                  + destruct Hr' as (Hp & Hs0 & Hd & Hm0 & Hm1 & Hn & Hlast).
                    repeat (split; [assumption || reflexivity || lia|]). exact Hlast.
                  + lia.
                - unfold screen1. rewrite <- app_assoc.
                  eexists; reflexivity. }
              destruct (tm || negb (ts =? 0)) eqn:Hchanged.
              ** destruct (insert_block_invariant t1 (fst (draws n))
                             (snd (draws n)) Hinv1) as (t2 & -> & Hinv2).
                 cbn [bind]. now apply Hnext.
              ** now apply Hnext.
           ++ assert (Hquiet : ts = 0 /\ tm = false).
              { apply orb_false_iff in Hmovable as [Hmovable _].
                apply orb_false_iff in Hmovable as [Hempty _].
                destruct tm.
                - rewrite Hroom in Hempty by now left. discriminate.
                - destruct (Z.eq_dec ts 0) as [E|E]; [now split|].
                  rewrite Hroom in Hempty by now right. discriminate. }
              assert (Ht1 : t1 = t) by now apply Hsame.
              destruct Hquiet as [-> ->]. subst t1.
              destruct (end_of_match_sound rest t player (score + 0)
                          (moves + 0) moves (List.length screen)
                          c false screen1)
                as (res & screen' & -> & Hs' & Hl' & Hr' & tail & ->);
                try assumption; try lia.
              ** split; [exact Hinv|]. split.
                 --- cbn [shown_status].
                     split; [lia|]. split; [assumption|lia].
                 --- split; [exact Hwon|].
                     rewrite can_move_ok by apply Hinv.
                     now rewrite Hmovable.
              ** apply lose_repeats_snoc; [assumption|].
                 intros front v E _. unfold screen1 in E.
                 apply app_inj_tail in E as [_ <-].
                 cbn. now rewrite !Z.add_0_r.
              ** exists res, (screen1 ++ tail).
                 split; [reflexivity|]. split; [assumption|].
                 split; [assumption|]. split.
                 --- replace (S (List.length rest))
                       with (List.length screen1 - List.length screen
                             + List.length rest)%nat by lia.
                     exact Hr'.
                 --- unfold screen1. rewrite <- app_assoc.
                     exists tail; reflexivity.
      * destruct (IH draws n c player t score moves screen1)
          as (res & screen' & -> & Hs' & Hl' & Hr' & tail & ->);
          try assumption.
        do 2 eexists; split; [reflexivity|].
        split; [assumption|]. split; [assumption|]. split.
        -- destruct res as [[[[p s] mv] b]|]; cbn [loop_result] in *.
           ++ destruct Hr' as (Hp & Hs0 & Hd & Hm0 & Hm1 & Hn & Hlast).
              repeat (split; [assumption || reflexivity || lia|]). exact Hlast.
           ++ lia.
        -- unfold screen1. rewrite <- app_assoc. eexists; reflexivity.
Qed.

Lemma game_setup_invariant (draws : nat -> nat * nat) :
  exists t, game_setup draws = Ok t /\ grid_invariant t.
Proof.
  unfold game_setup. change (range 0 2 1) with [0; 1]. cbn [for_each].
  destruct (insert_block_invariant new_table
              (fst (draws (Z.to_nat 0))) (snd (draws (Z.to_nat 0))))
    as (t1 & -> & Hinv1);
    [apply grid_invariantb_sound; reflexivity|].
  cbn [bind].
  destruct (insert_block_invariant t1
              (fst (draws (Z.to_nat 1))) (snd (draws (Z.to_nat 1))) Hinv1)
    as (t2 & -> & Hinv2).
  now exists t2.
Qed.

Lemma game_match_sound (inputs : list string) (draws : nat -> nat * nat)
  (lang : Z) (ascii : bool) (player : string) :
  exists t res tail,
    game_setup draws = Ok t
    /\ game_match inputs draws lang ascii player
       = Ok (res, PrintTable t (player, 0, 0) (lang, ascii) :: tail)
    /\ Forall sound_screen
         (PrintTable t (player, 0, 0) (lang, ascii) :: tail)
    /\ lose_repeats (PrintTable t (player, 0, 0) (lang, ascii) :: tail)
    /\ sound_result player (List.length inputs)
         (PrintTable t (player, 0, 0) (lang, ascii) :: tail) res.
Proof.
  unfold game_match.
  destruct (game_setup_invariant draws) as (t & -> & Hinv). cbn [bind].
  destruct (match_loop_sound inputs draws 2 (lang, ascii) player t 0 0 []
              Hinv)
    as (res & screen & -> & Hs & Hl & Hr & tail & ->);
    try lia; try constructor; try apply Z.divide_0_r.
  exists t, res, tail. cbn [app] in *.
  repeat (split; [assumption || reflexivity|]).
  destruct res as [[[[p s] mv] b]|]; cbn [loop_result sound_result] in *.
  - destruct Hr as (Hp & Hs0 & Hd & Hm0 & Hm1 & Hn & Hlast).
    repeat (split; [assumption || reflexivity || lia|]). exact Hlast.
  - exact Hr.
Qed.

(** X12.  In the match the grid functions never raise: whatever the
    inputs and the random draws, and however many inputs the terminal
    delivers before it stops the match, every call of [push_blocks],
    [insert_block] and [can_move] made by [game_match] returns.  Every
    screen shown holds a grid that satisfies the grid invariant, a score
    that is a non-negative multiple of 4 and a non-negative count of
    moves; the win is shown only on a grid with the 2048 tile and the
    defeat only on a grid without it on which [can_move] is false.  When
    the match returns, it returns the player it was given with the score
    and the moves of the last screen; the moves are fewer than the
    screens shown, and the screens no more than the inputs given.  When
    the inputs run out first, one screen more than inputs was shown. *)
Theorem game_match_screens_sound (inputs : list string)
  (draws : nat -> nat * nat) (lang : Z) (ascii : bool) (player : string) :
  exists res screen,
    game_match inputs draws lang ascii player = Ok (res, screen)
    /\ Forall sound_screen screen
    /\ sound_result player (List.length inputs) screen res.
Proof.
  destruct (game_match_sound inputs draws lang ascii player)
    as (t & res & tail & _ & E & Hs & _ & Hr).
  eauto.
Qed.

(** X13.  The first screen of a match is the grid of [game_setup] with the
    score 0 and 0 moves, and a defeat is only shown after a screen of the
    same grid with the same score and moves: the push that ends the match
    as lost changed nothing, so the player saw the lost grid before the
    last key. *)
Theorem game_match_defeat_repeats_screen (inputs : list string)
  (draws : nat -> nat * nat) (lang : Z) (ascii : bool) (player : string) :
  exists t res tail,
    game_setup draws = Ok t
    /\ game_match inputs draws lang ascii player
       = Ok (res, PrintTable t (player, 0, 0) (lang, ascii) :: tail)
    /\ lose_repeats (PrintTable t (player, 0, 0) (lang, ascii) :: tail).
Proof.
  destruct (game_match_sound inputs draws lang ascii player)
    as (t & res & tail & Ht & E & _ & Hl & _).
  eauto 6.
Qed.
